(** * FAZT I4 interrogator clients: packet decoding and frame loops

    Shallow embedding of the two client programs of the repository,
    [read_spectral_data.c] (general telemetry dump) and [read_peak_data.c]
    (force-calibrated dump).  The helper functions [processPacket_Header],
    [processPacket_errorPayload], [wavelength], [channel_id], [fiber_id]
    and [sensor_id] compute the same values in both files and are embedded
    once; the two [main] loops differ and live in [Module Spectral] and
    [Module Peak].

    Integers are [Z] with the C conversions written out; receive buffers
    are lists of bytes read in the host's (little-endian) order; [double]
    is IEEE binary64 (primitive floats), behind the [Double] interface. *)

From Stdlib Require Import ZArith List Lia Bool Floats.
From coqutil Require Import Byte Word.LittleEndianList Z.bitblast.
Import ListNotations.
Local Open Scope Z_scope.

(** ** C integer types *)

Definition uint8_t (z : Z) : Z := z mod 2 ^ 8.
Definition uint16_t (z : Z) : Z := z mod 2 ^ 16.
Definition uint32_t (z : Z) : Z := z mod 2 ^ 32.
Definition uint64_t (z : Z) : Z := z mod 2 ^ 64.
Definition int16_t (z : Z) : Z := (z + 2 ^ 15) mod 2 ^ 16 - 2 ^ 15.
Definition int (z : Z) : Z := (z + 2 ^ 31) mod 2 ^ 32 - 2 ^ 31.
Definition time_t (z : Z) : Z := (z + 2 ^ 63) mod 2 ^ 64 - 2 ^ 63.

(** ** Packet sizes *)

Definition HEADER_SIZE : Z := 16.
Definition ERROR_PAYLOAD_SIZE : Z := 8.
Definition PEAK_PAYLOAD_SIZE : Z := 8.
Definition TSPEAK_PAYLOAD_SIZE : Z := 12.
Definition SPECTRAL_PAYLOAD_SIZE : Z := 8.
Definition FLAG_SIZE : Z := 8.

(** ** Packed structs over a receive buffer

    [field buf off len] is the unsigned member of [len] bytes at byte
    offset [off] of a [#pragma pack(1)] struct laid over [buf]. *)

Definition field (buf : list byte) (off len : nat) : Z :=
  le_combine (firstn len (skipn off buf)).

(** ** The C type [double]

    The arithmetic the programs use on [double], as an interface:
    subtraction, division, multiplication and decimal constants, where
    [dlit m e] is the constant written [m * 10^-e] in the source. *)

Class Double (D : Type) := {
  dsub : D -> D -> D;
  ddiv : D -> D -> D;
  dmul : D -> D -> D;
  dlit : Z -> Z -> D
}.

Declare Scope double_scope.
Delimit Scope double_scope with double.
Infix "-" := dsub : double_scope.
Infix "/" := ddiv : double_scope.
Infix "*" := dmul : double_scope.

Definition float_of_Z (z : Z) : float := PrimFloat.of_uint63 (Uint63.of_Z z).

(** IEEE binary64, which is what the compiled programs compute with: a
    decimal constant is the correctly rounded quotient of two integers
    that are both exact in binary64. *)

#[export] Instance binary64 : Double float := {
  dsub := PrimFloat.sub;
  ddiv := PrimFloat.div;
  dmul := PrimFloat.mul;
  dlit m e := PrimFloat.div (float_of_Z m) (float_of_Z (10 ^ e))
}.

(** ** Field extractors ([peak_data] is a pointer to 32-bit words) *)

Definition word (peak_data : list Z) (i : nat) : Z := nth i peak_data 0.

Definition sensor_id (peak_data : list Z) : Z :=
  uint8_t (Z.land (word peak_data 0) 0xff).

Definition fiber_id (peak_data : list Z) : Z :=
  uint8_t (Z.land (uint8_t (Z.shiftr (word peak_data 0) 8)) 0x0f).

Definition channel_id (peak_data : list Z) : Z :=
  uint8_t (Z.land (uint8_t (Z.shiftr (word peak_data 0) 12)) 0x0f).

(** The two words [peak_value[0]], [peak_value[1]] that [wavelength]
    builds, and the 64-bit pattern they form in memory. *)

Definition peak_value (peak_data : list Z) : list Z :=
  [ uint32_t (Z.lor (Z.land (word peak_data 0) (uint32_t (Z.lnot 0xffff))) 0x7fff);
    uint32_t (word peak_data 1) ].

Definition wavelength_bits (peak_data : list Z) : Z :=
  Z.lor (word (peak_value peak_data) 0)
        (Z.shiftl (word (peak_value peak_data) 1) 32).

(** Reading a 64-bit pattern as an IEEE-754 binary64 value. *)

Definition double_of_bits (x : Z) : float :=
  let s := Z.testbit x 63 in
  let e := Z.land (Z.shiftr x 52) 0x7ff in
  let m := Z.land x (Z.ones 52) in
  SF2Prim
    (if e =? 0 then
       match m with
       | Zpos p => S754_finite s p (-1074)
       | _ => S754_zero s
       end
     else if e =? 0x7ff then
       (if m =? 0 then S754_infinity s else S754_nan)
     else
       match Z.lor m (2 ^ 52) with
       | Zpos p => S754_finite s p (e - 1075)
       | _ => S754_nan
       end).

Definition wavelength (peak_data : list Z) : float :=
  double_of_bits (wavelength_bits peak_data).


Definition time_stamp (peak_data : list Z) : float :=
  (float_of_Z (uint32_t (word peak_data 2)) * dlit 5 10)%double.

(** ** Header *)

Record header_fields := {
  packetCounter : Z;
  sweepingType : Z;
  triggerMode : Z;
  dataOffset : Z;
  dataLength : Z;
  totalPacketSize : Z;
  unix_time : Z
}.

(** What [processPacket_Header] hands back: its return value, the three
    [int] out-parameters, and the values it derives for display. *)

Record header_result := {
  header_ret : Z;
  sweep_type : Z;
  DO : Z;
  DL : Z;
  header_shown : header_fields
}.

Definition processPacket_Header (buffer_header : list byte) : header_result :=
  let info := field buffer_header 0 2 in
  let packetCounterMask := 0xFFF in
  let sweepingTypeMask := 0x7000 in
  let triggerModeMask := 0x8000 in
  let packetCounter := uint16_t (Z.land info packetCounterMask) in
  let sweepingType := uint16_t (Z.shiftr (Z.land info sweepingTypeMask) 12) in
  let triggerMode := uint16_t (Z.shiftr (Z.land info triggerModeMask) 15) in
  let dataOffset := uint16_t (field buffer_header 2 2) in
  let dataLength := uint32_t (field buffer_header 4 4) in
  let totalPacketSize := uint32_t (dataOffset + dataLength + 8) in
  let timeStamp := field buffer_header 8 8 in
  let unix_time := time_t (uint64_t (Z.quot timeStamp 1000000000 - 2208988800)) in
  {| header_ret := 0;
     sweep_type := int sweepingType;
     DO := int dataOffset;
     DL := int dataLength;
     header_shown :=
       {| packetCounter := packetCounter;
          sweepingType := sweepingType;
          triggerMode := triggerMode;
          dataOffset := dataOffset;
          dataLength := dataLength;
          totalPacketSize := totalPacketSize;
          unix_time := unix_time |} |}.

(** The info word a device builds from its three sub-fields: counter in
    bits 0-11, sweep type in bits 12-14, trigger mode in bit 15. *)

Definition compose_info (counter sweep trigger : Z) : Z :=
  Z.lor counter (Z.lor (Z.shiftl sweep 12) (Z.shiftl trigger 15)).

(** ** Payloads *)

Record peak_record := {
  pk_sensor : Z;
  pk_fiber : Z;
  pk_channel : Z;
  pk_wavelength : float
}.

Definition peak_data_t (buffer_payload : list byte) : list Z :=
  [ field buffer_payload 0 4; field buffer_payload 4 4 ].

Definition ts_peak_data_t (buffer_payload : list byte) : list Z :=
  [ field buffer_payload 0 4; field buffer_payload 4 4; field buffer_payload 8 4 ].

Definition peak_record_of (peak_data : list Z) : peak_record :=
  {| pk_sensor := sensor_id peak_data;
     pk_fiber := fiber_id peak_data;
     pk_channel := channel_id peak_data;
     pk_wavelength := wavelength peak_data |}.

Definition processPacket_Payload (buffer_payload : list byte) : peak_record :=
  peak_record_of (peak_data_t buffer_payload).

Definition processPacket_tsPayload (buffer_payload : list byte) : peak_record :=
  peak_record_of (ts_peak_data_t buffer_payload).

Record spectral_info := {
  si_sensor : Z;
  si_fiber : Z;
  si_channel : Z;
  si_points : Z
}.

Definition processPacket_spectralPayload_info (buffer_payload : list byte)
  : spectral_info :=
  let data := [ field buffer_payload 0 4; field buffer_payload 4 4 ] in
  {| si_sensor := sensor_id data;
     si_fiber := fiber_id data;
     si_channel := channel_id data;
     si_points := word data 1 |}.

Record spectral_sample := {
  data1 : Z;
  data2 : Z;
  data3 : Z;
  data4 : Z
}.

Definition processPacket_spectralPayload (buffer_payload : list byte)
  : spectral_sample :=
  {| data1 := int16_t (field buffer_payload 0 2);
     data2 := int16_t (field buffer_payload 2 2);
     data3 := int16_t (field buffer_payload 4 2);
     data4 := int16_t (field buffer_payload 6 2) |}.

(** ** Error payload *)

Inductive error_report :=
| MissingPeak (sensor fiber channel : Z)
| MultiplePeaks (sensor fiber channel : Z)
| InternalError.

(** The tuple [data] of [processPacket_errorPayload]: the description
    goes to [data[0]], the error id to [data[1]]. *)

Definition error_data (error_payload : list byte) : list Z :=
  let error_id := field error_payload 0 4 in
  let error_description := field error_payload 4 4 in
  [ error_description; error_id ].

Definition processPacket_errorPayload (error_payload : list byte)
  : Z * error_report :=
  let data := error_data error_payload in
  (0,
   if word data 1 =? 500 then
     MissingPeak (sensor_id data) (fiber_id data) (channel_id data)
   else if word data 1 =? 501 then
     MultiplePeaks (sensor_id data) (fiber_id data) (channel_id data)
   else InternalError).


(** ** Calibration (read_peak_data.c) *)

Definition calibrationForce {D} `{Double D} (initial_wavelength wavelength : D) : D :=
  (let present_wavelength := wavelength in
   let delta_wavelength := present_wavelength - initial_wavelength in
   let P_epsilon := dlit 28 2 in
   let strain := delta_wavelength / initial_wavelength / (dlit 1 0 - P_epsilon) in
   let K := dlit 1 0 / dlit 460 0 / dlit 2986 5 in
   strain / K * dlit 1000 0)%double.

Section Table.
Context {D : Type} `{Double D}.

Definition CHANNEL_1_SENSOR_1_WAVELENGTH : D := dlit 153463 2.
Definition CHANNEL_1_SENSOR_2_WAVELENGTH : D := dlit 154965 2.
Definition CHANNEL_2_SENSOR_1_WAVELENGTH : D := dlit 153463 2.
Definition CHANNEL_2_SENSOR_2_WAVELENGTH : D := dlit 154965 2.
Definition CHANNEL_3_SENSOR_1_WAVELENGTH : D := dlit 153463 2.
Definition CHANNEL_3_SENSOR_2_WAVELENGTH : D := dlit 154965 2.
Definition CHANNEL_4_SENSOR_1_WAVELENGTH : D := dlit 153463 2.
Definition CHANNEL_4_SENSOR_2_WAVELENGTH : D := dlit 154965 2.

(** [double FBGs_info[4][1][2]], channel - fibre - sensor. *)

Definition FBGs_info : list (list (list D)) :=
  ([ [ [ CHANNEL_1_SENSOR_1_WAVELENGTH / dlit 1000000000 0;
         CHANNEL_1_SENSOR_2_WAVELENGTH / dlit 1000000000 0 ] ];
     [ [ CHANNEL_2_SENSOR_1_WAVELENGTH / dlit 1000000000 0;
         CHANNEL_2_SENSOR_2_WAVELENGTH / dlit 1000000000 0 ] ];
     [ [ CHANNEL_3_SENSOR_1_WAVELENGTH / dlit 1000000000 0;
         CHANNEL_3_SENSOR_2_WAVELENGTH / dlit 1000000000 0 ] ];
     [ [ CHANNEL_4_SENSOR_1_WAVELENGTH / dlit 1000000000 0;
         CHANNEL_4_SENSOR_2_WAVELENGTH / dlit 1000000000 0 ] ] ])%double.

(** [a[i]] for an [int] index: [None] when [i] is outside the array. *)

Definition subscript {A : Type} (a : list A) (i : Z) : option A :=
  if i <? 0 then None else nth_error a (Z.to_nat i).

(** [FBGs_info[channel][fiber][sensor]]: [None] when one of the three
    indices is outside its dimension, where the C program reads
    whatever lies beyond the array. *)

Definition FBGs_info_at (channel fiber sensor : Z) : option D :=
  match subscript FBGs_info channel with
  | Some per_fiber =>
      match subscript per_fiber fiber with
      | Some per_sensor => subscript per_sensor sensor
      | None => None
      end
  | None => None
  end.
End Table.


(** ** The socket and the calls [main] makes

    The byte source is the list of bytes the device will still deliver.
    A [recv] of [len] bytes takes what is available, up to [len], writes it
    over the front of the buffer and returns the count; it returns 0
    ("Client disconnected") once the source is exhausted.  The programs
    print a diagnostic on a failed or empty read and carry on with the
    buffer as it is, so a diagnostic is determined by the recorded return
    value and changes no control flow. *)

Inductive buffer := Header_buffer | Payload_buffer | Error_buffer | Flag_buffer.

Record calibration := {
  initial_wavelength : option float;
  force : option float
}.

Inductive call :=
| call_recv (into : buffer) (len : Z) (returned : Z)
| call_Header (r : header_result)
| call_Payload (r : peak_record)
| call_tsPayload (r : peak_record)
| call_spectralPayload_info (r : spectral_info)
| call_spectralPayload (r : spectral_sample)
| call_errorPayload (r : error_report)
| call_calibrationForce (r : calibration)
| call_printf_force (sensor fiber channel : Z) (force : option float).

Definition io (A : Type) : Type := list byte -> A * list byte * list call.

Definition ret {A} (a : A) : io A := fun s => (a, s, []).

Definition bind {A B} (m : io A) (k : A -> io B) : io B :=
  fun s =>
    let '(a, s1, t1) := m s in
    let '(b, s2, t2) := k a s1 in
    (b, s2, t1 ++ t2).

Declare Scope io_scope.
Delimit Scope io_scope with io.
Notation "x <- m ;; k" := (bind m (fun x => k))
  (at level 61, m at next level, right associativity) : io_scope.
Notation "m ;; k" := (bind m (fun _ => k))
  (at level 61, right associativity) : io_scope.

Definition log (c : call) : io unit := fun s => (tt, s, [c]).

Definition value {A} (r : A * list byte * list call) : A := fst (fst r).
Definition rest {A} (r : A * list byte * list call) : list byte := snd (fst r).
Definition calls {A} (r : A * list byte * list call) : list call := snd r.

(** [char* buf[N] = { 0 }]: only the first [N] bytes are ever used. *)

Definition zeroed (n : Z) : list byte := repeat Byte.x00 (Z.to_nat n).

Definition overwrite (buf got : list byte) : list byte :=
  got ++ skipn (length got) buf.

(** [recv(hSocket, buf, len, 0)]: the buffer after the call. *)

Definition recv (into : buffer) (buf : list byte) (len : Z) : io (list byte) :=
  fun s =>
    let got := firstn (Z.to_nat len) s in
    (overwrite buf got, skipn (Z.to_nat len) s,
     [call_recv into len (Z.of_nat (length got))]).

(** [for (int i = first; i < bound; i++) body], the loop state being the
    receive buffer declared before the loop. *)

Fixpoint iterate {S} (n : nat) (body : S -> io S) (st : S) : io S :=
  match n with
  | O => ret st
  | Datatypes.S n' => (st' <- body st ;; iterate n' body st')%io
  end.

Definition for_int {S} (first bound : Z) (body : S -> io S) (st : S) : io unit :=
  (iterate (Z.to_nat (bound - first)) body st ;; ret tt)%io.

(** [while (1) body]: [fuel] bounds the number of iterations run; the
    result is [Some] of the exit status once [body] breaks, [None] while
    the loop is still running. *)

Inductive ctl := Continue | Break.

Fixpoint while_1 (fuel : nat) (body : io ctl) : io (option Z) :=
  match fuel with
  | O => ret None
  | Datatypes.S fuel' =>
      (c <- body ;;
       match c with
       | Break => ret (Some 0)
       | Continue => while_1 fuel' body
       end)%io
  end.

(** ** read_spectral_data.c *)

Module Spectral.

Definition peak_element (buffer_payload : list byte) : io (list byte) :=
  (buffer_payload <- recv Payload_buffer buffer_payload PEAK_PAYLOAD_SIZE ;;
   log (call_Payload (processPacket_Payload buffer_payload)) ;;
   ret buffer_payload)%io.

Definition spectral_element (buffer_payload : list byte) : io (list byte) :=
  (buffer_payload <- recv Payload_buffer buffer_payload SPECTRAL_PAYLOAD_SIZE ;;
   log (call_spectralPayload (processPacket_spectralPayload buffer_payload)) ;;
   ret buffer_payload)%io.

Definition tspeak_element (buffer_payload : list byte) : io (list byte) :=
  (buffer_payload <- recv Payload_buffer buffer_payload TSPEAK_PAYLOAD_SIZE ;;
   log (call_tsPayload (processPacket_tsPayload buffer_payload)) ;;
   ret buffer_payload)%io.

(** The payload loops under [DO == 16]. *)

Definition payload (h : header_result) : io unit :=
  (if sweep_type h =? 0 then
     for_int 0 (Z.quot (DL h) PEAK_PAYLOAD_SIZE)
       peak_element (zeroed PEAK_PAYLOAD_SIZE)
   else if sweep_type h =? 1 then
     buffer_payload <-
       recv Payload_buffer (zeroed SPECTRAL_PAYLOAD_SIZE) SPECTRAL_PAYLOAD_SIZE ;;
     log (call_spectralPayload_info
            (processPacket_spectralPayload_info buffer_payload)) ;;
     for_int 1 (Z.quot (DL h) SPECTRAL_PAYLOAD_SIZE)
       spectral_element buffer_payload
   else if sweep_type h =? 2 then
     for_int 0 (Z.quot (DL h) TSPEAK_PAYLOAD_SIZE)
       tspeak_element (zeroed TSPEAK_PAYLOAD_SIZE)
   else ret tt)%io.

(** The body of [while (1)] in [main]: both exits are [break]s, after
    the flag of the first frame or right after an error payload. *)

Definition frame : io ctl :=
  (buffer_header <- recv Header_buffer (zeroed HEADER_SIZE) HEADER_SIZE ;;
   let h := processPacket_Header buffer_header in
   log (call_Header h) ;;
   if DO h =? 16 then
     payload h ;;
     recv Flag_buffer (zeroed FLAG_SIZE) FLAG_SIZE ;;
     ret Break
   else
     error_payload <- recv Error_buffer (zeroed ERROR_PAYLOAD_SIZE) ERROR_PAYLOAD_SIZE ;;
     log (call_errorPayload (snd (processPacket_errorPayload error_payload))) ;;
     ret Break)%io.

(** The receive requests [payload] is expected to make. *)

Definition payload_requests (h : header_result) : list (buffer * Z) :=
  if sweep_type h =? 0 then
    repeat (Payload_buffer, PEAK_PAYLOAD_SIZE)
           (Z.to_nat (Z.quot (DL h) PEAK_PAYLOAD_SIZE))
  else if sweep_type h =? 1 then
    (Payload_buffer, SPECTRAL_PAYLOAD_SIZE)
    :: repeat (Payload_buffer, SPECTRAL_PAYLOAD_SIZE)
              (Z.to_nat (Z.quot (DL h) SPECTRAL_PAYLOAD_SIZE - 1))
  else if sweep_type h =? 2 then
    repeat (Payload_buffer, TSPEAK_PAYLOAD_SIZE)
           (Z.to_nat (Z.quot (DL h) TSPEAK_PAYLOAD_SIZE))
  else [].

Definition main (fuel : nat) : io (option Z) := while_1 fuel frame.

End Spectral.

(** ** read_peak_data.c *)

Module Peak.

(** The table read and the call of [calibrationForce] that follow each
    decoded peak.  When an id is outside the table the C program reads
    beyond the array and calibrates against whatever lies there, which
    the source does not determine; the model records [None] for that
    reference and for the force computed from it, and carries on. *)

Definition calibrate (r : peak_record) : calibration :=
  let initial := FBGs_info_at (pk_channel r) (pk_fiber r) (pk_sensor r) in
  {| initial_wavelength := initial;
     force := option_map (fun i => calibrationForce i (pk_wavelength r)) initial |}.

Definition peak_element (buffer_payload : list byte) : io (list byte) :=
  (buffer_payload <- recv Payload_buffer buffer_payload PEAK_PAYLOAD_SIZE ;;
   let r := processPacket_Payload buffer_payload in
   log (call_Payload r) ;;
   log (call_calibrationForce (calibrate r)) ;;
   ret buffer_payload)%io.

Definition tspeak_element (buffer_payload : list byte) : io (list byte) :=
  (buffer_payload <- recv Payload_buffer buffer_payload TSPEAK_PAYLOAD_SIZE ;;
   let r := processPacket_tsPayload buffer_payload in
   log (call_tsPayload r) ;;
   log (call_calibrationForce (calibrate r)) ;;
   log (call_printf_force (pk_sensor r) (pk_fiber r) (pk_channel r)
          (force (calibrate r))) ;;
   ret buffer_payload)%io.

(** The payload loops.  [main] has this text twice: once under
    [DO == 16] and once more after the error payload. *)

Definition payload (h : header_result) : io unit :=
  (if sweep_type h =? 0 then
     for_int 0 (Z.quot (DL h) PEAK_PAYLOAD_SIZE)
       peak_element (zeroed PEAK_PAYLOAD_SIZE)
   else if sweep_type h =? 2 then
     for_int 0 (Z.quot (DL h) TSPEAK_PAYLOAD_SIZE)
       tspeak_element (zeroed TSPEAK_PAYLOAD_SIZE)
   else ret tt)%io.

(** The body of [while (1)] in [main]. *)

Definition frame : io ctl :=
  (buffer_header <- recv Header_buffer (zeroed HEADER_SIZE) HEADER_SIZE ;;
   let h := processPacket_Header buffer_header in
   log (call_Header h) ;;
   (if DO h =? 16 then
      payload h
    else
      error_payload <- recv Error_buffer (zeroed ERROR_PAYLOAD_SIZE) ERROR_PAYLOAD_SIZE ;;
      log (call_errorPayload (snd (processPacket_errorPayload error_payload))) ;;
      payload h) ;;
   recv Flag_buffer (zeroed FLAG_SIZE) FLAG_SIZE ;;
   ret Continue)%io.

Definition main (fuel : nat) : io (option Z) := while_1 fuel frame.

(** The receive requests [payload] is expected to make. *)

Definition payload_requests (h : header_result) : list (buffer * Z) :=
  if sweep_type h =? 0 then
    repeat (Payload_buffer, PEAK_PAYLOAD_SIZE)
           (Z.to_nat (Z.quot (DL h) PEAK_PAYLOAD_SIZE))
  else if sweep_type h =? 2 then
    repeat (Payload_buffer, TSPEAK_PAYLOAD_SIZE)
           (Z.to_nat (Z.quot (DL h) TSPEAK_PAYLOAD_SIZE))
  else [].

End Peak.

(** ** Reading a call trace *)

(** The receive requests of a trace: which buffer, how many bytes. *)

Fixpoint requests (t : list call) : list (buffer * Z) :=
  match t with
  | [] => []
  | call_recv into len _ :: t' => (into, len) :: requests t'
  | _ :: t' => requests t'
  end.

Definition is_recv (c : call) : bool :=
  match c with call_recv _ _ _ => true | _ => false end.

(** The decoded records of a trace, in the order they were produced. *)

Definition records (t : list call) : list call :=
  filter (fun c => negb (is_recv c)) t.

Definition buffer_eqb (a b : buffer) : bool :=
  match a, b with
  | Header_buffer, Header_buffer | Payload_buffer, Payload_buffer
  | Error_buffer, Error_buffer | Flag_buffer, Flag_buffer => true
  | _, _ => false
  end.

(** Total number of bytes a trace asks for into one kind of buffer. *)

Definition total (b : buffer) (rs : list (buffer * Z)) : Z :=
  fold_right Z.add 0 (map snd (filter (fun r => buffer_eqb (fst r) b) rs)).

Definition requested (b : buffer) (t : list call) : Z := total b (requests t).

Definition is_spectralPayload (c : call) : bool :=
  match c with call_spectralPayload _ => true | _ => false end.

Definition is_spectralPayload_info (c : call) : bool :=
  match c with call_spectralPayload_info _ => true | _ => false end.

(** The header buffer a frame decodes when the source holds [s]. *)

Definition header_of (s : list byte) : header_result :=
  processPacket_Header
    (overwrite (zeroed HEADER_SIZE) (firstn (Z.to_nat HEADER_SIZE) s)).

(** [chunks size n s]: the first [n] consecutive [size]-byte pieces of [s]. *)

Fixpoint chunks (size n : nat) (s : list byte) : list (list byte) :=
  match n with
  | O => []
  | Datatypes.S n' => firstn size s :: chunks size n' (skipn size s)
  end.

(** A device-side frame header, for building test streams. *)

Definition header_bytes (info data_offset data_length time : Z) : list byte :=
  le_split 2 info ++ le_split 2 data_offset ++ le_split 4 data_length
  ++ le_split 8 time.


(** ** Sample streams *)

(** A spectral frame with [dataLength = 8 + 4*1*8 = 40]: the info element,
    four sample elements, the flag. *)

Definition spectral_frame_40 : list byte :=
  header_bytes (compose_info 7 1 0) 16 40 0
  ++ le_split 4 0x1205 ++ le_split 4 300
  ++ le_split 32 0xffff0003000200010000
  ++ le_split 8 99.

(** A frame whose data offset is 24: an error payload, then one peak
    element, then the flag. *)

Definition error_frame_peak : list byte :=
  header_bytes (compose_info 7 0 0) 24 8 0
  ++ le_split 4 500 ++ le_split 4 0x1205
  ++ le_split 4 0x89A01001 ++ le_split 4 0x3EB9E1B0
  ++ le_split 8 1.

(** A header announcing sweep type 3. *)

Definition unknown_sweep_header : list byte :=
  header_bytes (compose_info 7 3 0) 16 8 0.

(** ** The orchestrator statements of the specification *)

(** On a frame whose data offset is not 16, exactly the 8-byte error
    payload is read and no normal payload byte. *)

Definition error_frame_reads_no_payload (frame : io ctl) (s : list byte) : Prop :=
  DO (header_of s) <> 16 ->
  requested Error_buffer (calls (frame s)) = ERROR_PAYLOAD_SIZE
  /\ requested Payload_buffer (calls (frame s)) = 0.

(** A spectral frame of [8 + 4k*8] bytes yields one info record and [k]
    sample records. *)

Definition spectral_frame_yields_k_samples (k : Z) (s : list byte) : Prop :=
  let h := header_of s in
  sweep_type h = 1 -> DO h = 16 -> dataLength (header_shown h) = 8 + 4 * k * 8 ->
  length (filter is_spectralPayload_info (calls (Spectral.frame s))) = 1%nat
  /\ length (filter is_spectralPayload (calls (Spectral.frame s))) = Z.to_nat k.

(** A sweep type above 2 makes header decoding fail. *)

Definition unknown_sweep_type_fails (buffer_header : list byte) : Prop :=
  2 < sweepingType (header_shown (processPacket_Header buffer_header)) ->
  header_ret (processPacket_Header buffer_header) <> 0.

(** Every frame ends with the 8 flag bytes and the loop goes on. *)

Definition flag_read_then_next_header (frame : io ctl) (s : list byte) : Prop :=
  requested Flag_buffer (calls (frame s)) = FLAG_SIZE
  /\ value (frame s) = Continue.

(** ** Device-side encodings and trace measures *)

(** The low 16 bits of a peak word: sensor id in bits 0-7, fibre id in
    bits 8-11, channel id in bits 12-15. *)

Definition encode_ids (sensor fiber channel : Z) : Z :=
  Z.lor sensor (Z.lor (Z.shiftl fiber 8) (Z.shiftl channel 12)).

(** A peak element as the device sends it: the 64-bit pattern of a
    double, low word first, with the ids laid over its low 16 bits. *)

Definition encode_peak (sensor fiber channel bits : Z) : list byte :=
  le_split 4 (Z.lor (Z.land (bits mod 2 ^ 32) 0xFFFF0000)
                    (encode_ids sensor fiber channel))
  ++ le_split 4 (bits / 2 ^ 32).

(** A spectral sample element: four 16-bit amplitudes in two's complement. *)

Definition encode_sample (a1 a2 a3 a4 : Z) : list byte :=
  le_split 2 a1 ++ le_split 2 a2 ++ le_split 2 a3 ++ le_split 2 a4.

(** The IEEE-754 datum [double_of_bits] hands to [SF2Prim]. *)

Definition spec_of_bits (x : Z) : spec_float :=
  let s := Z.testbit x 63 in
  let e := Z.land (Z.shiftr x 52) 0x7ff in
  let m := Z.land x (Z.ones 52) in
  if e =? 0 then
    match m with
    | Zpos p => S754_finite s p (-1074)
    | _ => S754_zero s
    end
  else if e =? 0x7ff then
    (if m =? 0 then S754_infinity s else S754_nan)
  else
    match Z.lor m (2 ^ 52) with
    | Zpos p => S754_finite s p (e - 1075)
    | _ => S754_nan
    end.

(** The number of bytes the receive requests of a trace ask for. *)

Definition asked (rs : list (buffer * Z)) : nat :=
  fold_right Nat.add 0%nat (map (fun r => Z.to_nat (snd r)) rs).

Definition consumed (t : list call) : nat := asked (requests t).

(** An [io] computation leaves the source advanced by what it asked for. *)

Definition advances {A} (m : io A) : Prop :=
  forall s, rest (m s) = skipn (consumed (calls (m s))) s.

(** ** The calibration statements of the specification, in binary64 *)

(** The force at a nonzero reference wavelength is 0. *)

Definition force_zero_at_reference (reference : float) : Prop :=
  PrimFloat.eqb reference 0 = false ->
  PrimFloat.eqb (calibrationForce reference reference) 0 = true.

(** The force is additive in the wavelength difference: the force at the
    difference [d1 + d2] is the sum of the forces at [d1] and at [d2]. *)

Definition force_additive (reference d1 d2 : float) : Prop :=
  PrimFloat.eqb
    (calibrationForce reference (reference + (d1 + d2))%float)
    (calibrationForce reference (reference + d1)%float
     + calibrationForce reference (reference + d2)%float)%float
  = true.

(** ** What the [recv] calls of a trace returned *)

(** The number of bytes the [recv] calls of a trace returned. *)

Definition taken (t : list call) : nat :=
  fold_right Nat.add 0%nat
    (map (fun c => match c with
                   | call_recv _ _ returned => Z.to_nat returned
                   | _ => 0%nat
                   end) t).

(** An [io] computation leaves the source advanced by what its [recv]
    calls returned, which is never more than the source held nor more
    than was asked for. *)

Definition takes {A} (m : io A) : Prop :=
  forall s,
    rest (m s) = skipn (taken (calls (m s))) s
    /\ (taken (calls (m s)) <= length s)%nat
    /\ (taken (calls (m s)) <= consumed (calls (m s)))%nat.

(** Every [recv] of the trace returned the count it asked for. *)

Definition served (t : list call) : Prop :=
  Forall (fun c => match c with
                   | call_recv _ len returned => returned = len
                   | _ => True
                   end) t.

Definition serves {A} (m : io A) : Prop :=
  forall s, (consumed (calls (m s)) <= length s)%nat -> served (calls (m s)).

(** ** Peak records inside the table *)

(** The ids of a peak record index the 4 x 1 x 2 table [FBGs_info]. *)

Definition in_table (r : peak_record) : Prop :=
  0 <= pk_channel r < 4 /\ 0 <= pk_fiber r < 1 /\ 0 <= pk_sensor r < 2.

(** [c] is the calibration of [r] against the table entry of its ids. *)

Definition calibrated (r : peak_record) (c : calibration) : Prop :=
  exists reference : float,
    FBGs_info_at (pk_channel r) (pk_fiber r) (pk_sensor r) = Some reference
    /\ c = {| initial_wavelength := Some reference;
              force := Some (calibrationForce reference (pk_wavelength r)) |}.

(** * Properties *)

(** ** Field extractors *)

Lemma sensor_id_mod (w0 : Z) (ws : list Z) :
  sensor_id (w0 :: ws) = w0 mod 2 ^ 8.
Proof.
  unfold sensor_id, uint8_t, word; cbn [nth].
  change 0xff with (Z.ones 8).
  rewrite Z.land_ones by lia.
  apply Z.mod_mod; lia.
Qed.

Lemma nibble_of_byte (x : Z) : (Z.land (x mod 2 ^ 8) 0x0f) mod 2 ^ 8 = x mod 2 ^ 4.
Proof.
  change 0x0f with (Z.ones 4).
  Z.bitblast.
Qed.

Lemma fiber_id_mod (w0 : Z) (ws : list Z) :
  fiber_id (w0 :: ws) = (w0 / 2 ^ 8) mod 2 ^ 4.
Proof.
  unfold fiber_id, uint8_t, word; cbn [nth].
  rewrite Z.shiftr_div_pow2 by lia.
  apply nibble_of_byte.
Qed.

Lemma channel_id_mod (w0 : Z) (ws : list Z) :
  channel_id (w0 :: ws) = (w0 / 2 ^ 12) mod 2 ^ 4.
Proof.
  unfold channel_id, uint8_t, word; cbn [nth].
  rewrite Z.shiftr_div_pow2 by lia.
  apply nibble_of_byte.
Qed.

Lemma testbit_slice (w n k i : Z) :
  0 <= n -> 0 <= k -> 0 <= i ->
  Z.testbit ((w / 2 ^ n) mod 2 ^ k) i = (i <? k) && Z.testbit w (i + n).
Proof.
  intros Hn Hk Hi.
  rewrite Z.testbit_mod_pow2 by lia.
  rewrite Z.div_pow2_bits by lia.
  reflexivity.
Qed.

(** C8: every 32-bit word gives a sensor id below 256 and fibre and
    channel ids below 16; the sensor id is exactly bits 0-7 of the word,
    the fibre id bits 8-11 and the channel id bits 12-15, so the three
    ranges are disjoint and together they are the low 16 bits. *)
Theorem extractors_bounded_and_disjoint (w0 : Z) (ws : list Z) :
  0 <= w0 < 2 ^ 32 ->
  let peak_data := w0 :: ws in
  (0 <= sensor_id peak_data < 256
   /\ 0 <= fiber_id peak_data < 16
   /\ 0 <= channel_id peak_data < 16)
  /\ (forall i, 0 <= i ->
        Z.testbit (sensor_id peak_data) i = (i <? 8) && Z.testbit w0 i)
  /\ (forall i, 0 <= i ->
        Z.testbit (fiber_id peak_data) i = (i <? 4) && Z.testbit w0 (i + 8))
  /\ (forall i, 0 <= i ->
        Z.testbit (channel_id peak_data) i = (i <? 4) && Z.testbit w0 (i + 12))
  /\ w0 mod 2 ^ 16
     = sensor_id peak_data + 2 ^ 8 * fiber_id peak_data
       + 2 ^ 12 * channel_id peak_data.
Proof.
  intros Hw peak_data; subst peak_data.
  rewrite sensor_id_mod, fiber_id_mod, channel_id_mod.
  repeat split.
  - apply Z.mod_pos_bound; lia.
  - apply Z.mod_pos_bound; lia.
  - apply Z.mod_pos_bound; lia.
  - apply Z.mod_pos_bound; lia.
  - apply Z.mod_pos_bound; lia.
  - apply Z.mod_pos_bound; lia.
  - intros i Hi. rewrite Z.testbit_mod_pow2 by lia. reflexivity.
  - intros i Hi. apply testbit_slice; lia.
  - intros i Hi. apply testbit_slice; lia.
  - change (2 ^ 16) with 65536; change (2 ^ 12) with 4096;
      change (2 ^ 8) with 256; change (2 ^ 4) with 16.
    Z.div_mod_to_equations. lia.
Qed.

Lemma extractors_bounded_and_disjoint_witness :
  (0 <= sensor_id [0x00ABCDEF] < 256
   /\ 0 <= fiber_id [0x00ABCDEF] < 16
   /\ 0 <= channel_id [0x00ABCDEF] < 16)
  /\ 0x00ABCDEF mod 2 ^ 16
     = sensor_id [0x00ABCDEF] + 2 ^ 8 * fiber_id [0x00ABCDEF]
       + 2 ^ 12 * channel_id [0x00ABCDEF].
Proof.
  pose proof (extractors_bounded_and_disjoint 0x00ABCDEF [] ltac:(lia)) as H.
  cbv zeta in H.
  split; [exact (proj1 H) | exact (proj2 (proj2 (proj2 (proj2 H))))].
Defined.

(** ** Wavelength *)

Ltac split_index_signs :=
  repeat match goal with
    | |- context [Z.testbit _ ?i] =>
        lazymatch goal with
        | _ : 0 <= i |- _ => fail
        | _ : i < 0 |- _ => fail
        | _ => destruct (Z.lt_ge_cases i 0)
        end
    end.

Ltac bits :=
  Z.bitblast;
  split_index_signs;
  repeat match goal with
    | Hneg : ?i < 0 |- context [Z.testbit ?a ?i] =>
        rewrite (Z.testbit_neg_r a i Hneg)
    end;
  rewrite ?Z.testbit_mod_pow2 by lia;
  Z.bitblast_core.

Lemma masked_word_ignores_low_bits (w0 v : Z) :
  0 <= v < 2 ^ 16 ->
  uint32_t (Z.lor (Z.land (Z.lor (Z.land w0 0xFFFF0000) v)
                          (uint32_t (Z.lnot 0xffff))) 0x7fff)
  = uint32_t (Z.lor (Z.land w0 (uint32_t (Z.lnot 0xffff))) 0x7fff).
Proof.
  intros Hv.
  rewrite <- (Z.mod_small v (2 ^ 16)) by lia.
  unfold uint32_t.
  change ((Z.lnot 0xffff) mod 2 ^ 32) with (Z.shiftl (Z.ones 16) 16).
  change 0xFFFF0000 with (Z.shiftl (Z.ones 16) 16).
  change 0x7fff with (Z.ones 15).
  Z.bitblast.
Qed.

Lemma wavelength_bits_closed_form (w0 w1 : Z) (ws : list Z) :
  0 <= w0 < 2 ^ 32 -> 0 <= w1 < 2 ^ 32 ->
  wavelength_bits (w0 :: w1 :: ws) = 0x7fff + 2 ^ 16 * (w0 / 2 ^ 16) + 2 ^ 32 * w1.
Proof.
  intros H0 H1.
  transitivity
    (Z.lor (Z.lor (Z.ones 15) (Z.shiftl (Z.shiftr (w0 mod 2 ^ 32) 16) 16))
           (Z.shiftl (w1 mod 2 ^ 32) 32)).
  - unfold wavelength_bits, peak_value, word, uint32_t; cbn [nth].
    change ((Z.lnot 0xffff) mod 2 ^ 32) with (Z.shiftl (Z.ones 16) 16).
    change 0x7fff with (Z.ones 15).
    bits.
  - rewrite (Z.or_to_plus (Z.lor _ _)) by bits.
    rewrite (Z.or_to_plus (Z.ones 15)) by bits.
    rewrite !Z.shiftl_mul_pow2, Z.shiftr_div_pow2 by lia.
    rewrite !Z.mod_small by lia.
    change (Z.ones 15) with 0x7fff.
    lia.
Qed.

(** C4: overwriting the low 16 bits of [w0] with any 16-bit value leaves
    the wavelength unchanged, as a 64-bit pattern and as the double read
    from it: the pattern is made of the upper 16 bits of [w0] and of
    [w1], with its low 16 bits forced to 0x7FFF. *)
Theorem wavelength_ignores_id_bits (w0 w1 v : Z) (ws : list Z) :
  0 <= w0 < 2 ^ 32 -> 0 <= w1 < 2 ^ 32 -> 0 <= v < 2 ^ 16 ->
  wavelength_bits (Z.lor (Z.land w0 0xFFFF0000) v :: w1 :: ws)
  = wavelength_bits (w0 :: w1 :: ws)
  /\ wavelength (Z.lor (Z.land w0 0xFFFF0000) v :: w1 :: ws)
     = wavelength (w0 :: w1 :: ws)
  /\ wavelength_bits (w0 :: w1 :: ws) mod 2 ^ 16 = 0x7FFF
  /\ wavelength_bits (w0 :: w1 :: ws) / 2 ^ 16 = w0 / 2 ^ 16 + 2 ^ 16 * w1.
Proof.
  intros H0 H1 Hv.
  assert (E : wavelength_bits (Z.lor (Z.land w0 0xFFFF0000) v :: w1 :: ws)
              = wavelength_bits (w0 :: w1 :: ws)).
  { unfold wavelength_bits, peak_value, word; cbn [nth].
    rewrite masked_word_ignores_low_bits by assumption.
    reflexivity. }
  split; [exact E|].
  split; [unfold wavelength; rewrite E; reflexivity|].
  rewrite wavelength_bits_closed_form by assumption.
  change (2 ^ 32) with 4294967296; change (2 ^ 16) with 65536.
  split; Z.div_mod_to_equations; lia.
Qed.

Lemma wavelength_ignores_id_bits_witness :
  wavelength_bits [Z.lor (Z.land 0x89A02752 0xFFFF0000) 0x1234; 0x3EB9E1B0]
  = wavelength_bits [0x89A02752; 0x3EB9E1B0]
  /\ wavelength [Z.lor (Z.land 0x89A02752 0xFFFF0000) 0x1234; 0x3EB9E1B0]
     = wavelength [0x89A02752; 0x3EB9E1B0].
Proof.
  pose proof (wavelength_ignores_id_bits 0x89A02752 0x3EB9E1B0 0x1234 []
                ltac:(lia) ltac:(lia) ltac:(lia)) as H.
  split; [exact (proj1 H) | exact (proj1 (proj2 H))].
Defined.

Example wavelength_of_sample_peak :
  wavelength_bits [0x89A01205; 0x3EB9E1B0] = 0x3EB9E1B089A07FFF
  /\ wavelength [0x89A01205; 0x3EB9E1B0] = 0x1.9e1b089a07fffp-20%float.
Proof. split; vm_compute; reflexivity. Qed.

(** ** Header *)

Lemma field_of_le_split (n : nat) (x : Z) (tail : list byte) :
  field (le_split n x ++ tail) 0 n = x mod 2 ^ (Z.of_nat n * 8).
Proof.
  unfold field; cbn [skipn].
  rewrite firstn_app, length_le_split, Nat.sub_diag; cbn [firstn].
  rewrite app_nil_r.
  rewrite <- (length_le_split n x) at 1.
  rewrite firstn_all.
  apply le_combine_split.
Qed.

Lemma int_small (z : Z) : 0 <= z < 2 ^ 31 -> int z = z.
Proof.
  intros H. unfold int.
  rewrite Z.mod_small by lia. lia.
Qed.

Lemma info_subfields (counter sweep trigger : Z) :
  0 <= counter <= 0xFFF -> 0 <= sweep <= 2 -> 0 <= trigger <= 1 ->
  let info := compose_info counter sweep trigger mod 2 ^ 16 in
  uint16_t (Z.land info 0xFFF) = counter
  /\ uint16_t (Z.shiftr (Z.land info 0x7000) 12) = sweep
  /\ uint16_t (Z.shiftr (Z.land info 0x8000) 15) = trigger.
Proof.
  intros Hc Hs Ht info; subst info.
  unfold compose_info, uint16_t.
  rewrite <- (Z.mod_small counter (2 ^ 12)) by lia.
  rewrite <- (Z.mod_small sweep (2 ^ 3)) by lia.
  rewrite <- (Z.mod_small trigger (2 ^ 1)) by lia.
  change 0xFFF with (Z.ones 12).
  change 0x7000 with (Z.shiftl (Z.ones 3) 12).
  change 0x8000 with (Z.shiftl (Z.ones 1) 15).
  repeat split; bits.
Qed.

(** C6: for counter <= 0xFFF, sweep type <= 2 and trigger mode <= 1, a
    header whose info field holds the counter in bits 0-11, the sweep type
    in bits 12-14 and the trigger mode in bit 15 is decoded by
    [processPacket_Header] to exactly these three values. *)
Theorem header_info_round_trip (counter sweep trigger : Z) (tail : list byte) :
  0 <= counter <= 0xFFF -> 0 <= sweep <= 2 -> 0 <= trigger <= 1 ->
  let h := processPacket_Header
             (le_split 2 (compose_info counter sweep trigger) ++ tail) in
  packetCounter (header_shown h) = counter
  /\ sweepingType (header_shown h) = sweep
  /\ triggerMode (header_shown h) = trigger
  /\ sweep_type h = sweep.
Proof.
  intros Hc Hs Ht h; subst h.
  destruct (info_subfields counter sweep trigger Hc Hs Ht) as (Ec & Es & Et).
  unfold processPacket_Header;
    cbn [header_shown packetCounter sweepingType triggerMode sweep_type].
  rewrite field_of_le_split.
  change (Z.of_nat 2 * 8) with 16.
  rewrite Ec, Es, Et.
  repeat split.
  apply int_small; lia.
Qed.

Lemma header_info_round_trip_witness :
  let h := processPacket_Header
             (le_split 2 (compose_info 0xABC 2 1) ++ le_split 14 0) in
  packetCounter (header_shown h) = 0xABC
  /\ sweepingType (header_shown h) = 2
  /\ triggerMode (header_shown h) = 1
  /\ sweep_type h = 2.
Proof.
  apply (header_info_round_trip 0xABC 2 1 (le_split 14 0)); lia.
Defined.

(** ** Error payload *)

Lemma description_bytes (b4 b5 b6 b7 : byte) :
  let description := le_combine [b4; b5; b6; b7] in
  description mod 2 ^ 8 = byte.unsigned b4
  /\ (description / 2 ^ 8) mod 2 ^ 4 = byte.unsigned b5 mod 2 ^ 4
  /\ (description / 2 ^ 12) mod 2 ^ 4 = byte.unsigned b5 / 2 ^ 4.
Proof.
  intros description; subst description; cbv [le_combine].
  rewrite <- (byte.wrap_unsigned b4), <- (byte.wrap_unsigned b5).
  unfold byte.wrap.
  repeat split; bits.
Qed.

(** C9: every 8-byte error payload is decoded, with return value 0: id
    500 is reported as a missing peak, 501 as multiple peaks and any other
    id as an internal error; the sensor, fibre and channel ids shown come
    from the word at offset 4 (the description), through the extractors
    that peak records use, so they are its bits 0-7, 8-11 and 12-15: the
    byte at offset 4 and the two halves of the byte at offset 5. *)
Theorem error_payload_decoding_total (error_payload : list byte) :
  length error_payload = 8%nat ->
  let error_id := field error_payload 0 4 in
  let description := field error_payload 4 4 in
  let ids := peak_record_of [description; error_id] in
  processPacket_errorPayload error_payload
  = (0,
     if error_id =? 500 then
       MissingPeak (pk_sensor ids) (pk_fiber ids) (pk_channel ids)
     else if error_id =? 501 then
       MultiplePeaks (pk_sensor ids) (pk_fiber ids) (pk_channel ids)
     else InternalError)
  /\ (pk_sensor ids = description mod 2 ^ 8
      /\ pk_fiber ids = (description / 2 ^ 8) mod 2 ^ 4
      /\ pk_channel ids = (description / 2 ^ 12) mod 2 ^ 4)
  /\ (pk_sensor ids = byte.unsigned (nth 4 error_payload Byte.x00)
      /\ pk_fiber ids = byte.unsigned (nth 5 error_payload Byte.x00) mod 2 ^ 4
      /\ pk_channel ids = byte.unsigned (nth 5 error_payload Byte.x00) / 2 ^ 4).
Proof.
  intros Hlen error_id description ids.
  split; [reflexivity|].
  subst ids; unfold peak_record_of; cbn [pk_sensor pk_fiber pk_channel].
  rewrite sensor_id_mod, fiber_id_mod, channel_id_mod.
  split; [repeat split|].
  destruct error_payload as [|b0 [|b1 [|b2 [|b3 [|b4 [|b5 [|b6 [|b7 [|]]]]]]]]];
    try discriminate Hlen.
  exact (description_bytes b4 b5 b6 b7).
Qed.

Lemma error_payload_decoding_total_witness :
  processPacket_errorPayload (le_split 4 501 ++ le_split 4 0x2105)
  = (0, MultiplePeaks 5 1 2).
Proof.
  destruct (error_payload_decoding_total (le_split 4 501 ++ le_split 4 0x2105)
              eq_refl) as [E _].
  rewrite E. vm_compute. reflexivity.
Defined.

Example error_classification :
  snd (processPacket_errorPayload (le_split 4 500 ++ le_split 4 0x2105))
  = MissingPeak 5 1 2
  /\ snd (processPacket_errorPayload (le_split 4 501 ++ le_split 4 0x2105))
     = MultiplePeaks 5 1 2
  /\ snd (processPacket_errorPayload (le_split 4 999 ++ le_split 4 0x2105))
     = InternalError.
Proof. repeat split. Qed.

(** ** Calibration table *)

Lemma subscript_defined {A : Type} (a : list A) (i : Z) :
  subscript a i <> None <-> 0 <= i < Z.of_nat (length a).
Proof.
  unfold subscript.
  destruct (Z.ltb_spec i 0) as [Hneg | Hpos].
  - split; [congruence | lia].
  - rewrite nth_error_Some. lia.
Qed.

Lemma FBGs_info_at_defined {D : Type} `{Double D} (channel fiber sensor : Z) :
  FBGs_info_at channel fiber sensor <> None
  <-> 0 <= channel < 4 /\ 0 <= fiber < 1 /\ 0 <= sensor < 2.
Proof.
  unfold FBGs_info_at.
  destruct (subscript FBGs_info channel) as [per_fiber|] eqn:Ec.
  - assert (Hc : 0 <= channel < 4).
    { apply (subscript_defined FBGs_info). congruence. }
    assert (Hrow : length per_fiber = 1%nat
                   /\ forall per_sensor, In per_sensor per_fiber ->
                                          length per_sensor = 2%nat).
    { unfold subscript in Ec.
      destruct (channel <? 0); [discriminate|].
      apply nth_error_In in Ec.
      cbn in Ec.
      destruct Ec as [<- | [<- | [<- | [<- | []]]]];
        (split; [reflexivity | intros ? [<- | []]; reflexivity]). }
    destruct Hrow as [Hlen Hcols].
    destruct (subscript per_fiber fiber) as [per_sensor|] eqn:Ef.
    + assert (Hf : 0 <= fiber < Z.of_nat (length per_fiber)).
      { apply subscript_defined. congruence. }
      rewrite Hlen in Hf.
      assert (Hin : In per_sensor per_fiber).
      { unfold subscript in Ef.
        destruct (fiber <? 0); [discriminate|].
        eapply nth_error_In; eassumption. }
      rewrite subscript_defined, (Hcols _ Hin). lia.
    + assert (Hf : ~ 0 <= fiber < Z.of_nat (length per_fiber)).
      { rewrite <- subscript_defined. congruence. }
      rewrite Hlen in Hf.
      split; [congruence | lia].
  - assert (Hc : ~ 0 <= channel < Z.of_nat (length (@FBGs_info D _))).
    { rewrite <- subscript_defined. congruence. }
    cbn in Hc.
    split; [congruence | lia].
Qed.

Lemma peak_record_ids_range (buffer_payload : list byte) :
  let r := processPacket_Payload buffer_payload in
  0 <= pk_channel r < 16 /\ 0 <= pk_fiber r < 16 /\ 0 <= pk_sensor r < 256.
Proof.
  unfold processPacket_Payload, peak_record_of, peak_data_t;
    cbn [pk_sensor pk_fiber pk_channel].
  rewrite sensor_id_mod, fiber_id_mod, channel_id_mod.
  repeat split; apply Z.mod_pos_bound; lia.
Qed.

(** C10: for a peak payload, the read of
    [FBGs_info[channel][fiber][sensor]] stays inside the 4 x 1 x 2 table
    exactly when the extracted channel id is at most 3, the fibre id is 0
    and the sensor id is at most 1; the extractors yield channel and fibre
    ids up to 15 and sensor ids up to 255, and there is an 8-byte peak
    payload (ids 15, 15, 255) whose read falls outside the table. *)
Theorem FBGs_info_lookup_bounds :
  (forall buffer_payload : list byte,
      let r := processPacket_Payload buffer_payload in
      initial_wavelength (Peak.calibrate r) <> None
      <-> pk_channel r <= 3 /\ pk_fiber r = 0 /\ pk_sensor r <= 1)
  /\ (forall buffer_payload : list byte,
        let r := processPacket_Payload buffer_payload in
        0 <= pk_channel r <= 15 /\ 0 <= pk_fiber r <= 15
        /\ 0 <= pk_sensor r <= 255)
  /\ (exists buffer_payload : list byte,
        let r := processPacket_Payload buffer_payload in
        length buffer_payload = 8%nat
        /\ pk_channel r = 15 /\ pk_fiber r = 15 /\ pk_sensor r = 255
        /\ initial_wavelength (Peak.calibrate r) = None
        /\ force (Peak.calibrate r) = None).
Proof.
  split; [|split].
  - intros buffer_payload r.
    pose proof (peak_record_ids_range buffer_payload) as Hr.
    cbv zeta in Hr. fold r in Hr.
    unfold Peak.calibrate; cbn [initial_wavelength].
    rewrite FBGs_info_at_defined. lia.
  - intros buffer_payload r.
    pose proof (peak_record_ids_range buffer_payload) as Hr.
    cbv zeta in Hr. fold r in Hr. lia.
  - exists (le_split 4 0x89A0FFFF ++ le_split 4 0x3EB9E1B0).
    vm_compute. repeat split.
Qed.

(** ** Calibration *)

Lemma SF64sub_diag (s : bool) (m : positive) (e : Z) :
  SF64sub (S754_finite s m e) (S754_finite s m e) = S754_zero false.
Proof.
  unfold SF64sub, SFsub.
  rewrite Z.sub_diag.
  reflexivity.
Qed.

(** X8: in the binary64 arithmetic of the compiled program, at every
    finite nonzero reference the computed force is a zero, carrying the
    sign of the reference. *)
Lemma calibrationForce_binary64_zero_at_reference
      (reference : float) (s : bool) (m : positive) (e : Z) :
  Prim2SF reference = S754_finite s m e ->
  Prim2SF (calibrationForce reference reference) = S754_zero s.
Proof.
  intros Href.
  unfold calibrationForce.
  set (one_minus_P := (dlit 1 0 - dlit 28 2)%double).
  set (K := (dlit 1 0 / dlit 460 0 / dlit 2986 5)%double).
  set (thousand := dlit 1000 0).
  change (Prim2SF (PrimFloat.mul
            (PrimFloat.div
               (PrimFloat.div
                  (PrimFloat.div (PrimFloat.sub reference reference) reference)
                  one_minus_P) K) thousand) = S754_zero s).
  assert (H1 : exists m1 e1, Prim2SF one_minus_P = S754_finite false m1 e1)
    by (vm_compute; eauto).
  assert (H2 : exists m2 e2, Prim2SF K = S754_finite false m2 e2)
    by (vm_compute; eauto).
  assert (H3 : exists m3 e3, Prim2SF thousand = S754_finite false m3 e3)
    by (vm_compute; eauto).
  destruct H1 as (m1 & e1 & H1), H2 as (m2 & e2 & H2), H3 as (m3 & e3 & H3).
  rewrite mul_spec, !div_spec, sub_spec, Href, H1, H2, H3, SF64sub_diag.
  destruct s; reflexivity.
Qed.

Example calibrationForce_binary64_sample :
  option_map (fun reference => calibrationForce reference reference)
             (FBGs_info_at 0 0 0)
  = Some 0%float
  /\ wavelength [0xFF5C0000; 0x3EB9BF0D] = 0x1.9bf0dff5c7fffp-20%float
  /\ FBGs_info_at 0 0 0 = Some 0x1.9bf2f87826ce4p-20%float
  /\ calibrationForce 0x1.9bf2f87826ce4p-20%float 0x1.9bf0dff5c7fffp-20%float
     = (-0x1.84363de5d182ap-2)%float.
Proof. repeat split; vm_compute; reflexivity. Qed.

(** ** The io monad *)

Lemma calls_bind {A B} (m : io A) (k : A -> io B) (s : list byte) :
  calls (bind m k s) = calls (m s) ++ calls (k (value (m s)) (rest (m s))).
Proof.
  unfold bind, calls, value, rest.
  destruct (m s) as [[a s1] t1]; cbn [fst snd].
  destruct (k a s1) as [[b s2] t2]; reflexivity.
Qed.

Lemma value_bind {A B} (m : io A) (k : A -> io B) (s : list byte) :
  value (bind m k s) = value (k (value (m s)) (rest (m s))).
Proof.
  unfold bind, calls, value, rest.
  destruct (m s) as [[a s1] t1]; cbn [fst snd].
  destruct (k a s1) as [[b s2] t2]; reflexivity.
Qed.

Lemma rest_bind {A B} (m : io A) (k : A -> io B) (s : list byte) :
  rest (bind m k s) = rest (k (value (m s)) (rest (m s))).
Proof.
  unfold bind, calls, value, rest.
  destruct (m s) as [[a s1] t1]; cbn [fst snd].
  destruct (k a s1) as [[b s2] t2]; reflexivity.
Qed.

Lemma calls_recv (into : buffer) (buf : list byte) (len : Z) (s : list byte) :
  calls (recv into buf len s)
  = [call_recv into len (Z.of_nat (length (firstn (Z.to_nat len) s)))].
Proof. reflexivity. Qed.

Lemma value_recv (into : buffer) (buf : list byte) (len : Z) (s : list byte) :
  value (recv into buf len s) = overwrite buf (firstn (Z.to_nat len) s).
Proof. reflexivity. Qed.

Lemma rest_recv (into : buffer) (buf : list byte) (len : Z) (s : list byte) :
  rest (recv into buf len s) = skipn (Z.to_nat len) s.
Proof. reflexivity. Qed.

Lemma calls_log (c : call) (s : list byte) : calls (log c s) = [c].
Proof. reflexivity. Qed.

Lemma rest_log (c : call) (s : list byte) : rest (log c s) = s.
Proof. reflexivity. Qed.

Lemma calls_ret {A} (a : A) (s : list byte) : calls (ret a s) = [].
Proof. reflexivity. Qed.

Lemma value_ret {A} (a : A) (s : list byte) : value (ret a s) = a.
Proof. reflexivity. Qed.

Lemma rest_ret {A} (a : A) (s : list byte) : rest (ret a s) = s.
Proof. reflexivity. Qed.

(** ** Reading traces *)

Lemma requests_app (t1 t2 : list call) :
  requests (t1 ++ t2) = requests t1 ++ requests t2.
Proof.
  induction t1 as [|c t1 IH]; [reflexivity|].
  destruct c; cbn [app requests]; rewrite IH; reflexivity.
Qed.

Lemma total_app (b : buffer) (rs1 rs2 : list (buffer * Z)) :
  total b (rs1 ++ rs2) = total b rs1 + total b rs2.
Proof.
  unfold total.
  rewrite filter_app, map_app, fold_right_app.
  generalize (map snd (filter (fun r => buffer_eqb (fst r) b) rs1)).
  intros l; induction l as [|x l IH]; cbn [fold_right]; lia.
Qed.

Lemma total_cons (b : buffer) (r : buffer * Z) (rs : list (buffer * Z)) :
  total b (r :: rs) = (if buffer_eqb (fst r) b then snd r else 0) + total b rs.
Proof.
  unfold total; cbn [filter].
  destruct (buffer_eqb (fst r) b); reflexivity.
Qed.

Lemma total_repeat (b into : buffer) (len : Z) (n : nat) :
  total b (repeat (into, len) n)
  = if buffer_eqb into b then len * Z.of_nat n else 0.
Proof.
  unfold total.
  induction n as [|n IH]; cbn [repeat filter fst].
  - destruct (buffer_eqb into b); cbn; lia.
  - destruct (buffer_eqb into b) eqn:E; cbn [map fold_right snd]; lia.
Qed.

Lemma records_app (t1 t2 : list call) :
  records (t1 ++ t2) = records t1 ++ records t2.
Proof. apply filter_app. Qed.

Lemma overwrite_full (buf got : list byte) :
  (length buf <= length got)%nat -> overwrite buf got = got.
Proof.
  intros H. unfold overwrite.
  rewrite skipn_all2 by assumption.
  apply app_nil_r.
Qed.

(** ** Loops *)

Lemma requests_iterate {S} (body : S -> io S) (r : buffer * Z) :
  (forall st s, requests (calls (body st s)) = [r]) ->
  forall n st s, requests (calls (iterate n body st s)) = repeat r n.
Proof.
  intros Hbody n; induction n as [|n IH]; intros st s; cbn [iterate repeat].
  - reflexivity.
  - rewrite calls_bind, requests_app, Hbody, IH. reflexivity.
Qed.

Lemma requests_for_int {S} (body : S -> io S) (r : buffer * Z) :
  (forall st s, requests (calls (body st s)) = [r]) ->
  forall first bound st s,
    requests (calls (for_int first bound body st s))
    = repeat r (Z.to_nat (bound - first)).
Proof.
  intros Hbody first bound st s. unfold for_int.
  rewrite calls_bind, requests_app, (requests_iterate body r Hbody).
  rewrite calls_ret. apply app_nil_r.
Qed.


(** ** Frames *)

Lemma requests_Spectral_payload (h : header_result) (s : list byte) :
  requests (calls (Spectral.payload h s)) = Spectral.payload_requests h.
Proof.
  unfold Spectral.payload, Spectral.payload_requests.
  destruct (sweep_type h =? 0); [|destruct (sweep_type h =? 1);
                                   [|destruct (sweep_type h =? 2)]].
  - rewrite (requests_for_int _ (Payload_buffer, PEAK_PAYLOAD_SIZE)).
    + rewrite Z.sub_0_r. reflexivity.
    + intros st s'. reflexivity.
  - rewrite calls_bind, calls_recv, calls_bind, calls_log, !requests_app.
    rewrite (requests_for_int _ (Payload_buffer, SPECTRAL_PAYLOAD_SIZE)).
    + reflexivity.
    + intros st s'. reflexivity.
  - rewrite (requests_for_int _ (Payload_buffer, TSPEAK_PAYLOAD_SIZE)).
    + rewrite Z.sub_0_r. reflexivity.
    + intros st s'. reflexivity.
  - reflexivity.
Qed.

Lemma requests_Peak_payload (h : header_result) (s : list byte) :
  requests (calls (Peak.payload h s)) = Peak.payload_requests h.
Proof.
  unfold Peak.payload, Peak.payload_requests.
  destruct (sweep_type h =? 0); [|destruct (sweep_type h =? 2)].
  - rewrite (requests_for_int _ (Payload_buffer, PEAK_PAYLOAD_SIZE)).
    + rewrite Z.sub_0_r. reflexivity.
    + intros st s'. reflexivity.
  - rewrite (requests_for_int _ (Payload_buffer, TSPEAK_PAYLOAD_SIZE)).
    + rewrite Z.sub_0_r. reflexivity.
    + intros st s'. reflexivity.
  - reflexivity.
Qed.

Lemma requests_Spectral_frame (s : list byte) :
  requests (calls (Spectral.frame s))
  = (Header_buffer, HEADER_SIZE)
    :: (if DO (header_of s) =? 16 then
          Spectral.payload_requests (header_of s) ++ [(Flag_buffer, FLAG_SIZE)]
        else [(Error_buffer, ERROR_PAYLOAD_SIZE)]).
Proof.
  unfold Spectral.frame; cbv zeta.
  rewrite calls_bind, calls_recv, value_recv, rest_recv.
  rewrite calls_bind, calls_log, rest_log.
  fold (header_of s).
  destruct (DO (header_of s) =? 16).
  - rewrite calls_bind, calls_bind, calls_recv, calls_ret.
    cbn [app requests]. rewrite requests_app, requests_Spectral_payload.
    reflexivity.
  - reflexivity.
Qed.

Lemma value_Spectral_frame (s : list byte) : value (Spectral.frame s) = Break.
Proof.
  unfold Spectral.frame; cbv zeta.
  rewrite value_bind, value_bind.
  destruct (DO _ =? 16); repeat rewrite value_bind; reflexivity.
Qed.

Lemma requests_Peak_frame (s : list byte) :
  requests (calls (Peak.frame s))
  = (Header_buffer, HEADER_SIZE)
    :: (if DO (header_of s) =? 16 then []
        else [(Error_buffer, ERROR_PAYLOAD_SIZE)])
    ++ Peak.payload_requests (header_of s) ++ [(Flag_buffer, FLAG_SIZE)].
Proof.
  unfold Peak.frame; cbv zeta.
  rewrite calls_bind, calls_recv, value_recv, rest_recv.
  rewrite calls_bind, calls_log, rest_log.
  fold (header_of s).
  rewrite calls_bind.
  destruct (DO (header_of s) =? 16).
  - rewrite calls_bind, calls_recv, calls_ret.
    cbn [app requests]. rewrite requests_app, requests_Peak_payload.
    reflexivity.
  - rewrite calls_bind, calls_recv, calls_bind, calls_log.
    rewrite calls_bind, calls_recv, calls_ret.
    cbn [app requests]. rewrite requests_app, requests_Peak_payload.
    reflexivity.
Qed.

Lemma value_Peak_frame (s : list byte) : value (Peak.frame s) = Continue.
Proof.
  unfold Peak.frame; cbv zeta.
  repeat rewrite value_bind. reflexivity.
Qed.

Lemma total_Spectral_payload_requests (b : buffer) (h : header_result) :
  b <> Payload_buffer -> total b (Spectral.payload_requests h) = 0.
Proof.
  intros Hb. unfold Spectral.payload_requests.
  assert (E : buffer_eqb Payload_buffer b = false)
    by (destruct b; try reflexivity; congruence).
  destruct (sweep_type h =? 0); [|destruct (sweep_type h =? 1);
                                   [|destruct (sweep_type h =? 2)]].
  - rewrite total_repeat, E. reflexivity.
  - change (total b (repeat (Payload_buffer, SPECTRAL_PAYLOAD_SIZE) 1
                     ++ repeat (Payload_buffer, SPECTRAL_PAYLOAD_SIZE)
                          (Z.to_nat (Z.quot (DL h) SPECTRAL_PAYLOAD_SIZE - 1))) = 0).
    rewrite total_app, !total_repeat, E. reflexivity.
  - rewrite total_repeat, E. reflexivity.
  - reflexivity.
Qed.

Lemma total_Peak_payload_requests (b : buffer) (h : header_result) :
  total b (Peak.payload_requests h)
  = if buffer_eqb Payload_buffer b then
      if sweep_type h =? 0 then
        PEAK_PAYLOAD_SIZE * Z.of_nat (Z.to_nat (Z.quot (DL h) PEAK_PAYLOAD_SIZE))
      else if sweep_type h =? 2 then
        TSPEAK_PAYLOAD_SIZE * Z.of_nat (Z.to_nat (Z.quot (DL h) TSPEAK_PAYLOAD_SIZE))
      else 0
    else 0.
Proof.
  unfold Peak.payload_requests.
  destruct (sweep_type h =? 0); [|destruct (sweep_type h =? 2)];
    rewrite ?total_repeat; destruct (buffer_eqb Payload_buffer b); reflexivity.
Qed.

Lemma calls_error_branch {A} (k : io A) (s : list byte) :
  records
    (calls
       (bind (recv Error_buffer (zeroed ERROR_PAYLOAD_SIZE) ERROR_PAYLOAD_SIZE)
             (fun error_payload =>
                bind (log (call_errorPayload
                             (snd (processPacket_errorPayload error_payload))))
                     (fun _ => k)) s))
  = call_errorPayload
      (snd (processPacket_errorPayload
              (overwrite (zeroed ERROR_PAYLOAD_SIZE)
                         (firstn (Z.to_nat ERROR_PAYLOAD_SIZE) s))))
    :: records (calls (k (skipn (Z.to_nat ERROR_PAYLOAD_SIZE) s))).
Proof.
  rewrite calls_bind, calls_recv, value_recv, rest_recv.
  rewrite calls_bind, calls_log, rest_log.
  reflexivity.
Qed.

(** C1 (as the code has it): on a frame whose data offset is not 16,
    [read_spectral_data.c] reads the header and exactly one 8-byte error
    payload, decodes it and stops, reading no normal payload;
    [read_peak_data.c] reads and decodes the same error payload first and
    then goes on to read the peak or time-stamped peak elements the
    header announces, and the flag. *)
Theorem error_frame_reads (s : list byte) :
  let h := header_of s in
  let error_payload :=
    overwrite (zeroed ERROR_PAYLOAD_SIZE) (firstn 8 (skipn 16 s)) in
  DO h <> 16 ->
  (requests (calls (Spectral.frame s))
   = [(Header_buffer, HEADER_SIZE); (Error_buffer, ERROR_PAYLOAD_SIZE)]
   /\ records (calls (Spectral.frame s))
      = [call_Header h;
         call_errorPayload (snd (processPacket_errorPayload error_payload))]
   /\ value (Spectral.frame s) = Break
   /\ requested Error_buffer (calls (Spectral.frame s)) = ERROR_PAYLOAD_SIZE
   /\ requested Payload_buffer (calls (Spectral.frame s)) = 0)
  /\ (requests (calls (Peak.frame s))
      = [(Header_buffer, HEADER_SIZE); (Error_buffer, ERROR_PAYLOAD_SIZE)]
        ++ Peak.payload_requests h ++ [(Flag_buffer, FLAG_SIZE)]
      /\ firstn 2 (records (calls (Peak.frame s)))
         = [call_Header h;
            call_errorPayload (snd (processPacket_errorPayload error_payload))]
      /\ requested Error_buffer (calls (Peak.frame s)) = ERROR_PAYLOAD_SIZE
      /\ requested Payload_buffer (calls (Peak.frame s))
         = if sweep_type h =? 0 then
             PEAK_PAYLOAD_SIZE
             * Z.of_nat (Z.to_nat (Z.quot (DL h) PEAK_PAYLOAD_SIZE))
           else if sweep_type h =? 2 then
             TSPEAK_PAYLOAD_SIZE
             * Z.of_nat (Z.to_nat (Z.quot (DL h) TSPEAK_PAYLOAD_SIZE))
           else 0).
Proof.
  intros h error_payload Hdo.
  assert (E : (DO (header_of s) =? 16) = false) by (apply Z.eqb_neq; exact Hdo).
  pose proof (requests_Spectral_frame s) as HS.
  pose proof (requests_Peak_frame s) as HP.
  rewrite E in HS, HP. fold h in HS, HP.
  split.
  - split; [exact HS|].
    split.
    { unfold Spectral.frame; cbv zeta.
      rewrite calls_bind, calls_recv, value_recv, rest_recv.
      rewrite calls_bind, calls_log, rest_log.
      fold (header_of s). rewrite E.
      cbn [app records filter is_recv negb].
      rewrite calls_error_branch. reflexivity. }
    split; [apply value_Spectral_frame|].
    unfold requested. rewrite HS. split; reflexivity.
  - split; [exact HP|].
    split.
    { unfold Peak.frame; cbv zeta.
      rewrite calls_bind, calls_recv, value_recv, rest_recv.
      rewrite calls_bind, calls_log, rest_log.
      fold (header_of s). rewrite calls_bind, E.
      cbn [app records filter is_recv negb].
      rewrite records_app, calls_error_branch. reflexivity. }
    unfold requested. rewrite HP.
    rewrite !total_cons, !total_app, !total_Peak_payload_requests.
    cbn [buffer_eqb fst snd total filter map fold_right].
    split; [reflexivity | lia].
Qed.

Lemma error_frame_reads_witness :
  requests (calls (Spectral.frame error_frame_peak))
  = [(Header_buffer, 16); (Error_buffer, 8)]
  /\ requests (calls (Peak.frame error_frame_peak))
     = [(Header_buffer, 16); (Error_buffer, 8); (Payload_buffer, 8);
        (Flag_buffer, 8)].
Proof.
  assert (Hdo : DO (header_of error_frame_peak) <> 16)
    by (vm_compute; discriminate).
  pose proof (error_frame_reads error_frame_peak Hdo) as H.
  cbv zeta in H.
  destruct H as [[HS _] [HP _]].
  split; [exact HS | rewrite HP; reflexivity].
Defined.

(** The statement of C1 fails for [read_peak_data.c]: on a frame with data
    offset 24, sweep type 0 and data length 8 it reads the error payload
    and then 8 bytes of peak payload. *)
Lemma error_frame_reads_counterexample :
  ~ error_frame_reads_no_payload Peak.frame error_frame_peak.
Proof.
  unfold error_frame_reads_no_payload. intros H.
  assert (Hdo : DO (header_of error_frame_peak) <> 16)
    by (vm_compute; discriminate).
  destruct (H Hdo) as [_ Hp].
  vm_compute in Hp. discriminate.
Qed.

(** ** Unknown sweep types *)

Lemma sweepingType_range (buffer_header : list byte) :
  0 <= sweepingType (header_shown (processPacket_Header buffer_header)) <= 7.
Proof.
  unfold processPacket_Header; cbn [header_shown sweepingType].
  set (info := field buffer_header 0 2).
  assert (E : uint16_t (Z.shiftr (Z.land info 0x7000) 12)
              = (info / 2 ^ 12) mod 2 ^ 3).
  { unfold uint16_t.
    change 0x7000 with (Z.shiftl (Z.ones 3) 12).
    rewrite <- Z.shiftr_div_pow2 by lia.
    bits. }
  rewrite E.
  assert (0 <= (info / 2 ^ 12) mod 2 ^ 3 < 2 ^ 3)
    by (apply Z.mod_pos_bound; lia).
  lia.
Qed.

Lemma sweep_type_shown (buffer_header : list byte) :
  sweep_type (processPacket_Header buffer_header)
  = sweepingType (header_shown (processPacket_Header buffer_header)).
Proof.
  pose proof (sweepingType_range buffer_header) as H.
  unfold processPacket_Header in *; cbn [header_shown sweepingType sweep_type] in *.
  apply int_small. lia.
Qed.

(** C3 (as the code has it): [processPacket_Header] never fails, it
    returns 0 and hands the sweep type on as it is; for a header whose
    sweep type is above 2 neither program reads a normal payload for the
    frame: [read_spectral_data.c] reads the flag (data offset 16) or the
    error payload (otherwise), [read_peak_data.c] reads the error payload
    when the data offset is not 16, and the flag. *)
Theorem unknown_sweep_type_reads (s : list byte) :
  let h := header_of s in
  2 < sweepingType (header_shown h) ->
  (forall buffer_header, header_ret (processPacket_Header buffer_header) = 0)
  /\ sweep_type h = sweepingType (header_shown h)
  /\ requests (calls (Spectral.frame s))
     = (Header_buffer, HEADER_SIZE)
       :: (if DO h =? 16 then [(Flag_buffer, FLAG_SIZE)]
           else [(Error_buffer, ERROR_PAYLOAD_SIZE)])
  /\ requests (calls (Peak.frame s))
     = (Header_buffer, HEADER_SIZE)
       :: (if DO h =? 16 then [] else [(Error_buffer, ERROR_PAYLOAD_SIZE)])
       ++ [(Flag_buffer, FLAG_SIZE)]
  /\ requested Payload_buffer (calls (Spectral.frame s)) = 0
  /\ requested Payload_buffer (calls (Peak.frame s)) = 0.
Proof.
  intros h Hsweep.
  assert (Hst : sweep_type h = sweepingType (header_shown h))
    by apply sweep_type_shown.
  assert (HS : Spectral.payload_requests h = []).
  { unfold Spectral.payload_requests.
    destruct (Z.eqb_spec (sweep_type h) 0); [lia|].
    destruct (Z.eqb_spec (sweep_type h) 1); [lia|].
    destruct (Z.eqb_spec (sweep_type h) 2); [lia|].
    reflexivity. }
  assert (HP : Peak.payload_requests h = []).
  { unfold Peak.payload_requests.
    destruct (Z.eqb_spec (sweep_type h) 0); [lia|].
    destruct (Z.eqb_spec (sweep_type h) 2); [lia|].
    reflexivity. }
  pose proof (requests_Spectral_frame s) as RS.
  pose proof (requests_Peak_frame s) as RP.
  fold h in RS, RP. rewrite HS in RS. rewrite HP in RP.
  cbn [app] in RS, RP.
  split; [reflexivity|].
  split; [exact Hst|].
  split; [exact RS|].
  split; [exact RP|].
  unfold requested. rewrite RS, RP.
  destruct (DO h =? 16); split; reflexivity.
Qed.

Lemma unknown_sweep_type_reads_witness :
  header_ret (header_of (unknown_sweep_header ++ le_split 8 1)) = 0
  /\ sweep_type (header_of (unknown_sweep_header ++ le_split 8 1)) = 3
  /\ requests (calls (Spectral.frame (unknown_sweep_header ++ le_split 8 1)))
     = [(Header_buffer, 16); (Flag_buffer, 8)]
  /\ requests (calls (Peak.frame (unknown_sweep_header ++ le_split 8 1)))
     = [(Header_buffer, 16); (Flag_buffer, 8)].
Proof.
  assert (Hsweep : 2 < sweepingType
                         (header_shown
                            (header_of (unknown_sweep_header ++ le_split 8 1))))
    by (vm_compute; reflexivity).
  pose proof (unknown_sweep_type_reads _ Hsweep) as H.
  cbv zeta in H.
  destruct H as (H0 & H1 & H2 & H3 & _).
  split; [apply H0|].
  split; [rewrite H1; vm_compute; reflexivity|].
  split; [rewrite H2; reflexivity | rewrite H3; reflexivity].
Defined.

(** The statement of C3 fails: a header announcing sweep type 3 is decoded
    with return value 0, like any other. *)
Lemma unknown_sweep_type_counterexample :
  ~ unknown_sweep_type_fails unknown_sweep_header.
Proof.
  unfold unknown_sweep_type_fails. intros H.
  apply H; vm_compute; reflexivity.
Qed.

(** ** Flag and loop *)

Lemma calls_Peak_frame_flag_last (s : list byte) :
  exists t n,
    calls (Peak.frame s) = t ++ [call_recv Flag_buffer FLAG_SIZE n]
    /\ requests t
       = (Header_buffer, HEADER_SIZE)
         :: (if DO (header_of s) =? 16 then []
             else [(Error_buffer, ERROR_PAYLOAD_SIZE)])
         ++ Peak.payload_requests (header_of s).
Proof.
  pose proof (requests_Peak_frame s) as R.
  revert R.
  unfold Peak.frame; cbv zeta.
  rewrite calls_bind, calls_recv, value_recv, rest_recv.
  rewrite calls_bind, calls_log, rest_log.
  fold (header_of s).
  rewrite calls_bind.
  set (phase := calls _).
  rewrite calls_bind, calls_recv, calls_ret.
  intros R.
  eexists (_ :: _ :: phase), _.
  split; [reflexivity|].
  cbn [app requests] in R |- *.
  rewrite requests_app in R. cbn [requests] in R.
  injection R as R.
  rewrite app_assoc in R.
  apply app_inj_tail in R. destruct R as [R _].
  rewrite R. reflexivity.
Qed.

Lemma value_Peak_main (fuel : nat) : forall s, value (Peak.main fuel s) = None.
Proof.
  unfold Peak.main.
  induction fuel as [|fuel IH]; intros s; cbn [while_1].
  - reflexivity.
  - rewrite value_bind, value_Peak_frame. apply IH.
Qed.

Lemma requested_Peak_frame (b : buffer) (s : list byte) :
  b <> Payload_buffer -> b <> Error_buffer ->
  requested b (calls (Peak.frame s))
  = if buffer_eqb Header_buffer b then HEADER_SIZE else FLAG_SIZE.
Proof.
  intros Hp He. unfold requested.
  rewrite requests_Peak_frame, total_cons, !total_app.
  rewrite total_Peak_payload_requests.
  destruct b; try congruence;
    destruct (DO (header_of s) =? 16); reflexivity.
Qed.

Lemma requested_Peak_main (b : buffer) (fuel : nat) :
  b <> Payload_buffer -> b <> Error_buffer ->
  forall s,
    requested b (calls (Peak.main fuel s))
    = (if buffer_eqb Header_buffer b then HEADER_SIZE else FLAG_SIZE)
      * Z.of_nat fuel.
Proof.
  intros Hp He. unfold Peak.main.
  induction fuel as [|fuel IH]; intros s; cbn [while_1].
  - rewrite calls_ret. unfold requested. cbn. lia.
  - rewrite calls_bind, value_Peak_frame.
    unfold requested in *. rewrite requests_app, total_app.
    rewrite IH.
    pose proof (requested_Peak_frame b s Hp He) as F.
    unfold requested in F. rewrite F. lia.
Qed.

(** C7 (as the code has it): in [read_peak_data.c] every frame, in either
    branch, ends with one read of exactly 8 flag bytes, after which the
    loop goes back to the next header: run for any number of iterations,
    [main] has read that many headers and flags and has not returned; in
    [read_spectral_data.c] the 8 flag bytes are read only after a normal
    payload (data offset 16), never after an error payload, and [main]
    returns after its first frame. *)
Theorem flag_after_payload (s : list byte) :
  (exists t n,
      calls (Peak.frame s) = t ++ [call_recv Flag_buffer FLAG_SIZE n]
      /\ requested Flag_buffer t = 0)
  /\ flag_read_then_next_header Peak.frame s
  /\ (forall fuel,
        value (Peak.main fuel s) = None
        /\ requested Header_buffer (calls (Peak.main fuel s))
           = HEADER_SIZE * Z.of_nat fuel
        /\ requested Flag_buffer (calls (Peak.main fuel s))
           = FLAG_SIZE * Z.of_nat fuel)
  /\ requested Flag_buffer (calls (Spectral.frame s))
     = (if DO (header_of s) =? 16 then FLAG_SIZE else 0)
  /\ value (Spectral.frame s) = Break
  /\ (forall fuel,
        value (Spectral.main (S fuel) s) = Some 0
        /\ calls (Spectral.main (S fuel) s) = calls (Spectral.frame s)).
Proof.
  split; [|split; [|split; [|split; [|split]]]].
  - destruct (calls_Peak_frame_flag_last s) as (t & n & Ht & Rt).
    exists t, n. split; [exact Ht|].
    unfold requested. rewrite Rt, total_cons, total_app.
    rewrite total_Peak_payload_requests.
    destruct (DO (header_of s) =? 16); reflexivity.
  - split; [|apply value_Peak_frame].
    rewrite requested_Peak_frame by discriminate. reflexivity.
  - intros fuel. split; [apply value_Peak_main|].
    split; rewrite requested_Peak_main by discriminate; reflexivity.
  - unfold requested. rewrite requests_Spectral_frame, total_cons.
    destruct (DO (header_of s) =? 16).
    + rewrite total_app, total_Spectral_payload_requests by discriminate.
      reflexivity.
    + reflexivity.
  - apply value_Spectral_frame.
  - intros fuel. unfold Spectral.main; cbn [while_1].
    rewrite value_bind, calls_bind, value_Spectral_frame.
    rewrite value_ret, calls_ret, app_nil_r. split; reflexivity.
Qed.

(** The statement of C7 fails for [read_spectral_data.c]: after an error
    payload it reads no flag byte, and it leaves the loop. *)
Lemma flag_after_payload_counterexample :
  ~ flag_read_then_next_header Spectral.frame error_frame_peak.
Proof.
  unfold flag_read_then_next_header. intros [H _].
  vm_compute in H. discriminate.
Qed.

(** ** Spectral frames *)

Lemma calls_spectral_element (buf s : list byte) :
  calls (Spectral.spectral_element buf s)
  = [call_recv Payload_buffer SPECTRAL_PAYLOAD_SIZE
       (Z.of_nat (length (firstn 8 s)));
     call_spectralPayload
       (processPacket_spectralPayload (overwrite buf (firstn 8 s)))].
Proof. reflexivity. Qed.

Lemma value_spectral_element (buf s : list byte) :
  value (Spectral.spectral_element buf s) = overwrite buf (firstn 8 s).
Proof. reflexivity. Qed.

Lemma rest_spectral_element (buf s : list byte) :
  rest (Spectral.spectral_element buf s) = skipn 8 s.
Proof. reflexivity. Qed.

Lemma spectral_elements_counted (n : nat) :
  forall buf s,
    length (filter is_spectralPayload
              (calls (iterate n Spectral.spectral_element buf s))) = n
    /\ filter is_spectralPayload_info
         (calls (iterate n Spectral.spectral_element buf s)) = [].
Proof.
  induction n as [|n IH]; intros buf s; cbn [iterate].
  - split; reflexivity.
  - rewrite calls_bind, calls_spectral_element, !filter_app.
    destruct (IH (value (Spectral.spectral_element buf s))
                 (rest (Spectral.spectral_element buf s))) as [IH1 IH2].
    rewrite IH2, length_app, IH1. split; reflexivity.
Qed.

Lemma spectral_elements_in_order (n : nat) :
  forall buf s,
    (length buf <= 8)%nat -> (8 * n <= length s)%nat ->
    records (calls (iterate n Spectral.spectral_element buf s))
    = map (fun element =>
             call_spectralPayload (processPacket_spectralPayload element))
          (chunks 8 n s).
Proof.
  induction n as [|n IH]; intros buf s Hbuf Hs; cbn [iterate chunks map].
  - reflexivity.
  - assert (Hgot : length (firstn 8 s) = 8%nat)
      by (rewrite length_firstn; lia).
    rewrite calls_bind, calls_spectral_element, records_app.
    rewrite value_spectral_element, rest_spectral_element.
    rewrite overwrite_full by lia.
    rewrite IH by (rewrite ?length_skipn; lia).
    reflexivity.
Qed.

Lemma calls_Spectral_frame_spectral (s : list byte) :
  DO (header_of s) = 16 -> sweep_type (header_of s) = 1 ->
  let info_element :=
    overwrite (zeroed SPECTRAL_PAYLOAD_SIZE) (firstn 8 (skipn 16 s)) in
  exists n0 n1 n2,
    calls (Spectral.frame s)
    = call_recv Header_buffer HEADER_SIZE n0
      :: call_Header (header_of s)
      :: call_recv Payload_buffer SPECTRAL_PAYLOAD_SIZE n1
      :: call_spectralPayload_info
           (processPacket_spectralPayload_info info_element)
      :: calls (iterate
                  (Z.to_nat (Z.quot (DL (header_of s)) SPECTRAL_PAYLOAD_SIZE - 1))
                  Spectral.spectral_element info_element (skipn 24 s))
      ++ [call_recv Flag_buffer FLAG_SIZE n2].
Proof.
  intros Hdo Hsweep info_element.
  unfold Spectral.frame; cbv zeta.
  rewrite calls_bind, calls_recv, value_recv, rest_recv.
  rewrite calls_bind, calls_log, rest_log.
  fold (header_of s). rewrite Hdo. cbn [Z.eqb Pos.eqb].
  rewrite calls_bind.
  unfold Spectral.payload at 1. rewrite Hsweep. cbn [Z.eqb Pos.eqb].
  rewrite calls_bind, calls_recv, value_recv, rest_recv.
  rewrite calls_bind, calls_log, rest_log.
  unfold for_int.
  rewrite calls_bind, calls_ret, app_nil_r.
  rewrite calls_bind, calls_recv, calls_ret.
  change (Z.to_nat HEADER_SIZE) with 16%nat.
  change (Z.to_nat SPECTRAL_PAYLOAD_SIZE) with 8%nat.
  rewrite skipn_skipn. change (8 + 16)%nat with 24%nat.
  fold info_element.
  cbn [app].
  do 3 eexists. reflexivity.
Qed.

(** C2 (as the code has it): a spectral frame (sweep type 1, data offset
    16) whose data length is [8 + 4k*8] bytes, below 2^31, yields exactly
    one info record, decoded from the first 8-byte element, followed by
    exactly [4k] sample records, one for each further 8-byte element, in
    arrival order. *)
Theorem spectral_frame_records (k : Z) (s : list byte) :
  let h := header_of s in
  0 <= k -> 8 + 4 * k * 8 < 2 ^ 31 ->
  sweep_type h = 1 -> DO h = 16 -> dataLength (header_shown h) = 8 + 4 * k * 8 ->
  length (filter is_spectralPayload_info (calls (Spectral.frame s))) = 1%nat
  /\ length (filter is_spectralPayload (calls (Spectral.frame s)))
     = Z.to_nat (4 * k)
  /\ (16 + 8 + 4 * k * 8 <= Z.of_nat (length s) ->
      records (calls (Spectral.frame s))
      = call_Header h
        :: call_spectralPayload_info
             (processPacket_spectralPayload_info (firstn 8 (skipn 16 s)))
        :: map (fun element =>
                  call_spectralPayload (processPacket_spectralPayload element))
               (chunks 8 (Z.to_nat (4 * k)) (skipn 24 s))).
Proof.
  intros h Hk Hmax Hsweep Hdo Hlen.
  assert (HDL : DL h = 8 + 4 * k * 8).
  { change (DL h) with (int (dataLength (header_shown h))).
    rewrite Hlen. apply int_small. lia. }
  assert (Hn : Z.to_nat (Z.quot (DL h) SPECTRAL_PAYLOAD_SIZE - 1)
               = Z.to_nat (4 * k)).
  { rewrite HDL. unfold SPECTRAL_PAYLOAD_SIZE.
    rewrite Z.quot_div_nonneg by lia.
    replace (8 + 4 * k * 8) with (1 * 8 + 4 * k * 8) by lia.
    rewrite Z.div_add by lia.
    change (1 * 8 / 8) with 1. f_equal. lia. }
  destruct (calls_Spectral_frame_spectral s Hdo Hsweep) as (n0 & n1 & n2 & E).
  fold h in E. rewrite Hn in E. rewrite E.
  set (info_element := overwrite (zeroed SPECTRAL_PAYLOAD_SIZE)
                                 (firstn 8 (skipn 16 s))).
  destruct (spectral_elements_counted (Z.to_nat (4 * k)) info_element
              (skipn 24 s)) as [Hcount Hnone].
  split; [|split].
  - cbn [filter is_spectralPayload_info].
    rewrite filter_app, Hnone. reflexivity.
  - cbn [filter is_spectralPayload].
    rewrite filter_app, length_app, Hcount. cbn. lia.
  - intros Hstream.
    assert (Hinfo : info_element = firstn 8 (skipn 16 s)).
    { apply overwrite_full.
      unfold zeroed.
      rewrite repeat_length, length_firstn, length_skipn.
      change (Z.to_nat SPECTRAL_PAYLOAD_SIZE) with 8%nat. lia. }
    cbn [records filter is_recv negb].
    change (filter (fun c => negb (is_recv c))) with records.
    rewrite records_app, spectral_elements_in_order.
    + rewrite Hinfo. cbn [records filter is_recv negb].
      rewrite app_nil_r. reflexivity.
    + rewrite Hinfo, length_firstn. lia.
    + rewrite length_skipn. lia.
Qed.

Lemma spectral_frame_records_witness :
  length (filter is_spectralPayload_info (calls (Spectral.frame spectral_frame_40)))
  = 1%nat
  /\ length (filter is_spectralPayload (calls (Spectral.frame spectral_frame_40)))
     = 4%nat.
Proof.
  pose proof (spectral_frame_records 1 spectral_frame_40 ltac:(lia) ltac:(lia)
                eq_refl eq_refl eq_refl) as H.
  cbv zeta in H.
  split; [exact (proj1 H) | exact (proj1 (proj2 H))].
Defined.

Example spectral_frame_40_records :
  records (calls (Spectral.frame spectral_frame_40))
  = [ call_Header (header_of spectral_frame_40);
      call_spectralPayload_info
        {| si_sensor := 5; si_fiber := 2; si_channel := 1; si_points := 300 |};
      call_spectralPayload {| data1 := 0; data2 := 1; data3 := 2; data4 := 3 |};
      call_spectralPayload {| data1 := -1; data2 := 0; data3 := 0; data4 := 0 |};
      call_spectralPayload {| data1 := 0; data2 := 0; data3 := 0; data4 := 0 |};
      call_spectralPayload {| data1 := 0; data2 := 0; data3 := 0; data4 := 0 |} ].
Proof. vm_compute. reflexivity. Qed.

(** The statement of C2 fails at [k = 1]: a spectral frame of
    [8 + 4*1*8 = 40] bytes yields four sample records, not one. *)
Lemma spectral_frame_records_counterexample :
  ~ spectral_frame_yields_k_samples 1 spectral_frame_40.
Proof.
  unfold spectral_frame_yields_k_samples. intros H.
  destruct (H eq_refl eq_refl eq_refl) as [_ Hk].
  vm_compute in Hk. discriminate.
Qed.


(** * Further properties of the decoders and of the frame loops *)

(** ** Buffers and fields *)

Lemma field_range (buf : list byte) (off len : nat) :
  0 <= field buf off len < 2 ^ (8 * Z.of_nat len).
Proof.
  unfold field.
  pose proof (le_combine_bound (firstn len (skipn off buf))) as H.
  pose proof (firstn_le_length len (skipn off buf)) as Hl.
  assert (2 ^ (8 * Z.of_nat (length (firstn len (skipn off buf))))
          <= 2 ^ (8 * Z.of_nat len))
    by (apply Z.pow_le_mono_r; lia).
  lia.
Qed.

Lemma field_at (pre post : list byte) (off n : nat) (x : Z) :
  length pre = off ->
  field (pre ++ le_split n x ++ post) off n = x mod 2 ^ (Z.of_nat n * 8).
Proof.
  intros <-. unfold field.
  rewrite skipn_app, skipn_all, Nat.sub_diag. cbn [app skipn].
  apply (field_of_le_split n x post).
Qed.

Lemma field_at_end (pre : list byte) (off n : nat) (x : Z) :
  length pre = off ->
  field (pre ++ le_split n x) off n = x mod 2 ^ (Z.of_nat n * 8).
Proof.
  intros H. rewrite <- (app_nil_r (le_split n x)).
  apply field_at. exact H.
Qed.

Lemma uint16_small (z : Z) : 0 <= z < 2 ^ 16 -> uint16_t z = z.
Proof. intros H. apply Z.mod_small. exact H. Qed.

Lemma uint32_small (z : Z) : 0 <= z < 2 ^ 32 -> uint32_t z = z.
Proof. intros H. apply Z.mod_small. exact H. Qed.

Lemma int_of_uint32 (z : Z) :
  0 <= z < 2 ^ 32 -> int z = if z <? 2 ^ 31 then z else z - 2 ^ 32.
Proof.
  intros H. unfold int.
  destruct (Z.ltb_spec z (2 ^ 31)) as [Hlt | Hge].
  - rewrite Z.mod_small by lia. lia.
  - replace (z + 2 ^ 31) with (z - 2 ^ 31 + 1 * 2 ^ 32) by lia.
    rewrite Z.mod_add by lia.
    rewrite Z.mod_small by lia. lia.
Qed.

Lemma time_t_of_uint64 (z : Z) :
  - 2 ^ 63 <= z < 2 ^ 63 -> time_t (uint64_t z) = z.
Proof.
  intros H. unfold time_t, uint64_t.
  rewrite Zplus_mod_idemp_l.
  rewrite Z.mod_small by lia. lia.
Qed.

(** ** Header decoding *)

Lemma info_fields (info : Z) :
  0 <= info < 2 ^ 16 ->
  uint16_t (Z.land info 0xFFF) = info mod 2 ^ 12
  /\ uint16_t (Z.shiftr (Z.land info 0x7000) 12) = (info / 2 ^ 12) mod 2 ^ 3
  /\ uint16_t (Z.shiftr (Z.land info 0x8000) 15) = info / 2 ^ 15.
Proof.
  intros H. unfold uint16_t.
  assert (E : info / 2 ^ 15 = (info / 2 ^ 15) mod 2 ^ 1).
  { symmetry. apply Z.mod_small.
    change (2 ^ 15) with 32768. change (2 ^ 16) with 65536 in H.
    change (2 ^ 1) with 2.
    Z.div_mod_to_equations. lia. }
  rewrite E.
  rewrite <- (Z.mod_small info (2 ^ 16)) by lia.
  change 0xFFF with (Z.ones 12).
  change 0x7000 with (Z.shiftl (Z.ones 3) 12).
  change 0x8000 with (Z.shiftl (Z.ones 1) 15).
  rewrite <- !Z.shiftr_div_pow2 by lia.
  repeat split; bits.
Qed.

Lemma unix_time_exact (buffer_header : list byte) :
  unix_time (header_shown (processPacket_Header buffer_header))
  = field buffer_header 8 8 / 1000000000 - 2208988800.
Proof.
  unfold processPacket_Header; cbn [header_shown unix_time].
  pose proof (field_range buffer_header 8 8) as H.
  change (2 ^ (8 * Z.of_nat 8)) with (2 ^ 64) in H.
  rewrite Z.quot_div_nonneg by lia.
  apply time_t_of_uint64.
  assert (0 <= field buffer_header 8 8 / 1000000000 < 2 ^ 64).
  { split; [apply Z.div_pos; lia|].
    apply Z.div_lt_upper_bound; lia. }
  change (2 ^ 64) with 18446744073709551616 in *.
  change (2 ^ 63) with 9223372036854775808.
  assert (field buffer_header 8 8 / 1000000000 < 18446744074).
  { apply Z.div_lt_upper_bound; lia. }
  lia.
Qed.

(** X1: a header laid out on the wire as info, data offset, data length
    and time stamp (little-endian, 2 + 2 + 4 + 8 bytes) is decoded to the
    same data offset and data length, to the three bit fields of the info
    word, to the packet size [offset + length + 8] modulo 2^32 and to the
    Unix time [stamp / 10^9 - 2208988800]; the [int] handed to [main] as
    [DL] is the data length when it is below 2^31 and the data length
    minus 2^32 otherwise. *)
Theorem header_fields_round_trip (info data_offset data_length time : Z) :
  0 <= info < 2 ^ 16 -> 0 <= data_offset < 2 ^ 16 ->
  0 <= data_length < 2 ^ 32 -> 0 <= time < 2 ^ 64 ->
  let h := processPacket_Header
             (header_bytes info data_offset data_length time) in
  (packetCounter (header_shown h) = info mod 2 ^ 12
   /\ sweepingType (header_shown h) = (info / 2 ^ 12) mod 2 ^ 3
   /\ triggerMode (header_shown h) = info / 2 ^ 15)
  /\ (dataOffset (header_shown h) = data_offset /\ DO h = data_offset)
  /\ (dataLength (header_shown h) = data_length
      /\ DL h = if data_length <? 2 ^ 31 then data_length
                else data_length - 2 ^ 32)
  /\ totalPacketSize (header_shown h)
     = (data_offset + data_length + 8) mod 2 ^ 32
  /\ unix_time (header_shown h) = time / 1000000000 - 2208988800.
Proof.
  intros Hi Ho Hl Ht h.
  assert (Einfo : field (header_bytes info data_offset data_length time) 0 2
                  = info).
  { unfold header_bytes. rewrite field_of_le_split.
    apply Z.mod_small. exact Hi. }
  assert (Eoff : field (header_bytes info data_offset data_length time) 2 2
                 = data_offset).
  { unfold header_bytes.
    rewrite (field_at (le_split 2 info)) by apply length_le_split.
    apply Z.mod_small. exact Ho. }
  assert (Elen : field (header_bytes info data_offset data_length time) 4 4
                 = data_length).
  { unfold header_bytes.
    rewrite (app_assoc (le_split 2 info)).
    rewrite (field_at (le_split 2 info ++ le_split 2 data_offset))
      by (rewrite length_app, !length_le_split; reflexivity).
    apply Z.mod_small. exact Hl. }
  assert (Etime : field (header_bytes info data_offset data_length time) 8 8
                  = time).
  { unfold header_bytes.
    rewrite (app_assoc (le_split 2 info)), (app_assoc (_ ++ _)).
    rewrite field_at_end
      by (rewrite !length_app, !length_le_split; reflexivity).
    apply Z.mod_small. exact Ht. }
  destruct (info_fields info Hi) as (E1 & E2 & E3).
  subst h.
  rewrite unix_time_exact, Etime.
  unfold processPacket_Header;
    cbn [header_shown packetCounter sweepingType triggerMode dataOffset
         dataLength totalPacketSize DO DL].
  rewrite Einfo, Eoff, Elen, E1, E2, E3.
  rewrite (uint16_small data_offset Ho), (uint32_small data_length Hl).
  rewrite (int_small data_offset) by lia.
  rewrite (int_of_uint32 data_length Hl).
  repeat split.
Qed.

Lemma header_fields_round_trip_witness :
  let h := processPacket_Header
             (header_bytes 0x9ABC 16 0x80000008 3900000000000000000) in
  (packetCounter (header_shown h) = 0x9ABC mod 2 ^ 12
   /\ sweepingType (header_shown h) = (0x9ABC / 2 ^ 12) mod 2 ^ 3
   /\ triggerMode (header_shown h) = 0x9ABC / 2 ^ 15)
  /\ (dataOffset (header_shown h) = 16 /\ DO h = 16)
  /\ (dataLength (header_shown h) = 0x80000008
      /\ DL h = if 0x80000008 <? 2 ^ 31 then 0x80000008
                else 0x80000008 - 2 ^ 32)
  /\ totalPacketSize (header_shown h) = (16 + 0x80000008 + 8) mod 2 ^ 32
  /\ unix_time (header_shown h)
     = 3900000000000000000 / 1000000000 - 2208988800.
Proof.
  apply (header_fields_round_trip 0x9ABC 16 0x80000008 3900000000000000000);
    lia.
Defined.

Lemma info_recomposed (info : Z) :
  0 <= info < 2 ^ 16 ->
  compose_info (info mod 2 ^ 12) ((info / 2 ^ 12) mod 2 ^ 3) (info / 2 ^ 15)
  = info.
Proof.
  intros H. unfold compose_info.
  rewrite <- !Z.shiftr_div_pow2 by lia.
  rewrite <- (Z.mod_small info (2 ^ 16)) by lia.
  bits.
Qed.

Lemma header_ints (buffer_header : list byte) :
  let h := processPacket_Header buffer_header in
  0 <= dataLength (header_shown h) < 2 ^ 32
  /\ (DL h = dataLength (header_shown h)
      \/ DL h = dataLength (header_shown h) - 2 ^ 32)
  /\ - 2 ^ 31 <= DL h < 2 ^ 31
  /\ DO h = dataOffset (header_shown h).
Proof.
  intros h. subst h.
  pose proof (field_range buffer_header 2 2) as Hoff.
  pose proof (field_range buffer_header 4 4) as Hlen.
  change (2 ^ (8 * Z.of_nat 2)) with (2 ^ 16) in Hoff.
  change (2 ^ (8 * Z.of_nat 4)) with (2 ^ 32) in Hlen.
  unfold processPacket_Header; cbn [header_shown dataLength dataOffset DL DO].
  rewrite uint16_small, uint32_small by assumption.
  rewrite (int_small (field buffer_header 2 2)) by lia.
  rewrite (int_of_uint32 _ Hlen).
  destruct (Z.ltb_spec (field buffer_header 4 4) (2 ^ 31)); lia.
Qed.

(** X2: whatever 16 bytes are in the header buffer, the decoded packet
    counter is at most 0xFFF, the sweep type at most 7 and the trigger
    mode at most 1, and the three together are the whole info word; the
    [int]s handed to [main] are the sweep type itself, the data offset
    itself (0 to 65535) and the data length reduced to the range of
    [int]; the Unix time is [stamp / 10^9 - 2208988800] without
    wrap-around, negative for stamps before 1970. *)
Theorem header_decoding_invariants (buffer_header : list byte) :
  let h := processPacket_Header buffer_header in
  let shown := header_shown h in
  (0 <= packetCounter shown <= 0xFFF
   /\ 0 <= sweepingType shown <= 7
   /\ 0 <= triggerMode shown <= 1)
  /\ compose_info (packetCounter shown) (sweepingType shown) (triggerMode shown)
     = field buffer_header 0 2
  /\ (sweep_type h = sweepingType shown
      /\ DO h = dataOffset shown /\ 0 <= DO h <= 65535)
  /\ (- 2 ^ 31 <= DL h < 2 ^ 31
      /\ 0 <= dataLength shown < 2 ^ 32
      /\ (DL h = dataLength shown \/ DL h = dataLength shown - 2 ^ 32))
  /\ (unix_time shown = field buffer_header 8 8 / 1000000000 - 2208988800
      /\ - 2208988800 <= unix_time shown).
Proof.
  intros h shown.
  pose proof (field_range buffer_header 0 2) as Hinfo.
  pose proof (field_range buffer_header 2 2) as Hoff.
  pose proof (field_range buffer_header 4 4) as Hlen.
  pose proof (field_range buffer_header 8 8) as Htime.
  change (2 ^ (8 * Z.of_nat 2)) with (2 ^ 16) in Hinfo, Hoff.
  change (2 ^ (8 * Z.of_nat 4)) with (2 ^ 32) in Hlen.
  destruct (info_fields _ Hinfo) as (E1 & E2 & E3).
  pose proof (sweep_type_shown buffer_header) as Hst.
  pose proof (unix_time_exact buffer_header) as Hut.
  subst shown h.
  unfold processPacket_Header in *;
    cbn [header_shown packetCounter sweepingType triggerMode dataOffset
         dataLength DO DL sweep_type unix_time] in *.
  rewrite E1, E2, E3, uint16_small, uint32_small by assumption.
  rewrite (int_small (field buffer_header 2 2)) by lia.
  rewrite (int_of_uint32 _ Hlen).
  assert (0 <= field buffer_header 0 2 mod 2 ^ 12 < 2 ^ 12)
    by (apply Z.mod_pos_bound; lia).
  assert (0 <= (field buffer_header 0 2 / 2 ^ 12) mod 2 ^ 3 < 2 ^ 3)
    by (apply Z.mod_pos_bound; lia).
  assert (0 <= field buffer_header 0 2 / 2 ^ 15 <= 1).
  { change (2 ^ 15) with 32768. change (2 ^ 16) with 65536 in Hinfo.
    Z.div_mod_to_equations. lia. }
  assert (0 <= field buffer_header 8 8 / 1000000000)
    by (apply Z.div_pos; lia).
  split; [lia|].
  split; [apply info_recomposed; exact Hinfo|].
  split; [split; [rewrite <- E2; exact Hst | lia]|].
  split; [|split; [exact Hut | lia]].
  destruct (Z.ltb_spec (field buffer_header 4 4) (2 ^ 31)); lia.
Qed.

(** ** Frames whose data length holds no element *)

Lemma no_element_fits (dl size : Z) :
  0 < size -> dl < size -> Z.to_nat (Z.quot dl size) = 0%nat.
Proof.
  intros Hsize Hdl.
  assert (Z.quot dl size <= Z.quot (size - 1) size)
    by (apply Z.quot_le_mono; lia).
  rewrite (Z.quot_small (size - 1) size) in H by lia.
  lia.
Qed.

(** X3: when the header's data length is below 8, or is 2^31 or more
    (which reaches [main] as a negative [int]), a frame with data offset
    16 reads no payload element: [read_peak_data.c] goes from the header
    straight to the flag, and so does [read_spectral_data.c] except for
    sweep type 1, where it still reads the 8-byte info element. *)
Theorem short_data_length_reads (s : list byte) :
  let h := header_of s in
  DO h = 16 ->
  dataLength (header_shown h) < 8 \/ 2 ^ 31 <= dataLength (header_shown h) ->
  DL h < 8
  /\ requests (calls (Spectral.frame s))
     = (Header_buffer, HEADER_SIZE)
       :: (if sweep_type h =? 1 then [(Payload_buffer, SPECTRAL_PAYLOAD_SIZE)]
           else [])
       ++ [(Flag_buffer, FLAG_SIZE)]
  /\ requests (calls (Peak.frame s))
     = [(Header_buffer, HEADER_SIZE); (Flag_buffer, FLAG_SIZE)].
Proof.
  intros h Hdo Hlen.
  assert (HDL : DL h < 8).
  { pose proof (header_ints
                  (overwrite (zeroed HEADER_SIZE)
                             (firstn (Z.to_nat HEADER_SIZE) s))) as I.
    cbv zeta in I. fold (header_of s) in I. fold h in I.
    destruct I as (Hl & Hcase & Hr & _).
    lia. }
  split; [exact HDL|].
  pose proof (no_element_fits (DL h) PEAK_PAYLOAD_SIZE eq_refl HDL) as Q8.
  assert (Q12 : Z.to_nat (Z.quot (DL h) TSPEAK_PAYLOAD_SIZE) = 0%nat)
    by (apply no_element_fits; unfold TSPEAK_PAYLOAD_SIZE; lia).
  assert (Q1 : Z.to_nat (Z.quot (DL h) SPECTRAL_PAYLOAD_SIZE - 1) = 0%nat).
  { change SPECTRAL_PAYLOAD_SIZE with PEAK_PAYLOAD_SIZE. lia. }
  rewrite requests_Spectral_frame, requests_Peak_frame. fold h.
  rewrite Hdo. cbn [Z.eqb Pos.eqb].
  unfold Spectral.payload_requests, Peak.payload_requests.
  change SPECTRAL_PAYLOAD_SIZE with PEAK_PAYLOAD_SIZE in *.
  rewrite Q8, Q12, Q1. cbn [repeat].
  split.
  - destruct (Z.eqb_spec (sweep_type h) 0) as [E0|].
    + rewrite E0. reflexivity.
    + destruct (sweep_type h =? 1); [reflexivity|].
      destruct (sweep_type h =? 2); reflexivity.
  - destruct (sweep_type h =? 0); [reflexivity|].
    destruct (sweep_type h =? 2); reflexivity.
Qed.

Lemma short_data_length_reads_witness :
  let s := header_bytes (compose_info 1 1 0) 16 0x80000008 0 ++ le_split 16 7 in
  DL (header_of s) < 8
  /\ requests (calls (Spectral.frame s))
     = [(Header_buffer, 16); (Payload_buffer, 8); (Flag_buffer, 8)]
  /\ requests (calls (Peak.frame s)) = [(Header_buffer, 16); (Flag_buffer, 8)].
Proof.
  intros s.
  assert (Hdo : DO (header_of s) = 16) by reflexivity.
  assert (Hlen : dataLength (header_shown (header_of s)) < 8
                 \/ 2 ^ 31 <= dataLength (header_shown (header_of s)))
    by (right; vm_compute; discriminate).
  destruct (short_data_length_reads s Hdo Hlen) as (H1 & H2 & H3).
  split; [exact H1|].
  split; [rewrite H2; reflexivity | exact H3].
Defined.

(** ** Payload round trips *)

Lemma encode_ids_decoded (high sensor fiber channel : Z) :
  0 <= sensor < 256 -> 0 <= fiber < 16 -> 0 <= channel < 16 ->
  let w0 := Z.lor (Z.land (high mod 2 ^ 32) 0xFFFF0000)
                  (encode_ids sensor fiber channel) in
  0 <= w0 < 2 ^ 32
  /\ w0 mod 2 ^ 8 = sensor
  /\ (w0 / 2 ^ 8) mod 2 ^ 4 = fiber
  /\ (w0 / 2 ^ 12) mod 2 ^ 4 = channel
  /\ w0 / 2 ^ 16 = (high mod 2 ^ 32) / 2 ^ 16.
Proof.
  intros Hs Hf Hc w0.
  assert (Ew : w0 = w0 mod 2 ^ 32).
  { subst w0. unfold encode_ids.
    rewrite <- (Z.mod_small sensor (2 ^ 8)) by lia.
    rewrite <- (Z.mod_small fiber (2 ^ 4)) by lia.
    rewrite <- (Z.mod_small channel (2 ^ 4)) by lia.
    change 0xFFFF0000 with (Z.shiftl (Z.ones 16) 16).
    bits. }
  split; [rewrite Ew; apply Z.mod_pos_bound; lia|].
  subst w0. unfold encode_ids.
  rewrite <- (Z.mod_small sensor (2 ^ 8)) by lia.
  rewrite <- (Z.mod_small fiber (2 ^ 4)) by lia.
  rewrite <- (Z.mod_small channel (2 ^ 4)) by lia.
  change 0xFFFF0000 with (Z.shiftl (Z.ones 16) 16).
  rewrite <- !Z.shiftr_div_pow2 by lia.
  repeat split; bits.
Qed.

Lemma fields_of_two_words (w0 w1 : Z) (tail : list byte) :
  0 <= w0 < 2 ^ 32 -> 0 <= w1 < 2 ^ 32 ->
  field ((le_split 4 w0 ++ le_split 4 w1) ++ tail) 0 4 = w0
  /\ field ((le_split 4 w0 ++ le_split 4 w1) ++ tail) 4 4 = w1.
Proof.
  intros H0 H1. rewrite <- app_assoc. split.
  - rewrite field_of_le_split. apply Z.mod_small. exact H0.
  - rewrite (field_at (le_split 4 w0)) by apply length_le_split.
    apply Z.mod_small. exact H1.
Qed.

(** X4: a peak element that carries the 64-bit pattern of a double with
    sensor, fibre and channel ids laid over its low 16 bits is decoded,
    by [processPacket_Payload] and by [processPacket_tsPayload] alike, to
    exactly these ids and to the pattern with its low 16 bits replaced by
    0x7FFF; bytes after the first 8 (the sub-timestamp of a time-stamped
    element) have no influence on the record. *)
Theorem peak_payload_round_trip
        (sensor fiber channel bits : Z) (tail : list byte) :
  0 <= sensor < 256 -> 0 <= fiber < 16 -> 0 <= channel < 16 ->
  0 <= bits < 2 ^ 64 ->
  let buffer_payload := encode_peak sensor fiber channel bits ++ tail in
  let r := processPacket_Payload buffer_payload in
  (pk_sensor r = sensor /\ pk_fiber r = fiber /\ pk_channel r = channel)
  /\ wavelength_bits (peak_data_t buffer_payload)
     = bits - bits mod 2 ^ 16 + 0x7FFF
  /\ pk_wavelength r = double_of_bits (bits - bits mod 2 ^ 16 + 0x7FFF)
  /\ processPacket_tsPayload buffer_payload = r.
Proof.
  intros Hs Hf Hc Hb buffer_payload r.
  destruct (encode_ids_decoded bits sensor fiber channel Hs Hf Hc)
    as (Hw0 & Es & Ef & Ec & Ehigh).
  cbv zeta in Hw0, Es, Ef, Ec, Ehigh.
  set (w0 := Z.lor (Z.land (bits mod 2 ^ 32) 0xFFFF0000)
                   (encode_ids sensor fiber channel)) in *.
  assert (Hw1 : 0 <= bits / 2 ^ 32 < 2 ^ 32).
  { split; [apply Z.div_pos; lia|].
    apply Z.div_lt_upper_bound; [lia|]. change (2 ^ 32 * 2 ^ 32) with (2 ^ 64).
    lia. }
  destruct (fields_of_two_words w0 (bits / 2 ^ 32) tail Hw0 Hw1) as [F0 F4].
  assert (Ebits : wavelength_bits (peak_data_t buffer_payload)
                  = bits - bits mod 2 ^ 16 + 0x7FFF).
  { subst buffer_payload. unfold peak_data_t, encode_peak. fold w0.
    rewrite F0, F4.
    rewrite wavelength_bits_closed_form by assumption.
    rewrite Ehigh.
    change (2 ^ 32) with 4294967296. change (2 ^ 16) with 65536.
    Z.div_mod_to_equations. lia. }
  split; [|split; [exact Ebits | split]].
  - subst r buffer_payload.
    unfold processPacket_Payload, peak_record_of, peak_data_t, encode_peak;
      cbn [pk_sensor pk_fiber pk_channel]. fold w0.
    rewrite F0, sensor_id_mod, fiber_id_mod, channel_id_mod.
    repeat split; assumption.
  - subst r. unfold processPacket_Payload, peak_record_of;
      cbn [pk_wavelength]. unfold wavelength. rewrite Ebits. reflexivity.
  - reflexivity.
Qed.

Lemma peak_payload_round_trip_witness :
  let buffer_payload :=
    encode_peak 5 2 1 0x3EB9E1B089A02752 ++ le_split 4 1000 in
  let r := processPacket_Payload buffer_payload in
  (pk_sensor r = 5 /\ pk_fiber r = 2 /\ pk_channel r = 1)
  /\ wavelength_bits (peak_data_t buffer_payload)
     = 0x3EB9E1B089A02752 - 0x3EB9E1B089A02752 mod 2 ^ 16 + 0x7FFF
  /\ pk_wavelength r
     = double_of_bits
         (0x3EB9E1B089A02752 - 0x3EB9E1B089A02752 mod 2 ^ 16 + 0x7FFF)
  /\ processPacket_tsPayload buffer_payload = r.
Proof.
  apply (peak_payload_round_trip 5 2 1 0x3EB9E1B089A02752 (le_split 4 1000));
    lia.
Defined.

Lemma int16_of_wrapped (a : Z) :
  - 2 ^ 15 <= a < 2 ^ 15 -> int16_t (a mod 2 ^ 16) = a.
Proof.
  intros H. unfold int16_t.
  rewrite Zplus_mod_idemp_l.
  rewrite Z.mod_small by lia. lia.
Qed.

(** X5: a spectral sample element made of four amplitudes between
    -32768 and 32767, each as a little-endian 16-bit two's complement
    number, is decoded by [processPacket_spectralPayload] to exactly
    these four amplitudes, negative ones included. *)
Theorem spectral_sample_round_trip (a1 a2 a3 a4 : Z) (tail : list byte) :
  - 2 ^ 15 <= a1 < 2 ^ 15 -> - 2 ^ 15 <= a2 < 2 ^ 15 ->
  - 2 ^ 15 <= a3 < 2 ^ 15 -> - 2 ^ 15 <= a4 < 2 ^ 15 ->
  processPacket_spectralPayload (encode_sample a1 a2 a3 a4 ++ tail)
  = {| data1 := a1; data2 := a2; data3 := a3; data4 := a4 |}.
Proof.
  intros H1 H2 H3 H4.
  unfold processPacket_spectralPayload, encode_sample.
  rewrite <- !app_assoc.
  rewrite field_of_le_split.
  rewrite (field_at (le_split 2 a1)) by apply length_le_split.
  rewrite (app_assoc (le_split 2 a1)).
  rewrite (field_at (le_split 2 a1 ++ le_split 2 a2))
    by (rewrite length_app, !length_le_split; reflexivity).
  rewrite (app_assoc (le_split 2 a1 ++ le_split 2 a2)).
  rewrite (field_at ((le_split 2 a1 ++ le_split 2 a2) ++ le_split 2 a3))
    by (rewrite !length_app, !length_le_split; reflexivity).
  change (Z.of_nat 2 * 8) with 16.
  rewrite !int16_of_wrapped by assumption.
  reflexivity.
Qed.

Lemma spectral_sample_round_trip_witness :
  processPacket_spectralPayload (encode_sample (-32768) (-1) 0 32767 ++ [])
  = {| data1 := -32768; data2 := -1; data3 := 0; data4 := 32767 |}.
Proof.
  apply (spectral_sample_round_trip (-32768) (-1) 0 32767 []); lia.
Defined.

(** X6: for a spectral info element made of two little-endian 32-bit
    words, [processPacket_spectralPayload_info] reports the second word
    unchanged as the number of spectral points, and bits 0-7, 8-11 and
    12-15 of the first word as sensor, fibre and channel ids; the upper
    16 bits of the first word are not used. *)
Theorem spectral_info_round_trip (w0 points : Z) (tail : list byte) :
  0 <= w0 < 2 ^ 32 -> 0 <= points < 2 ^ 32 ->
  processPacket_spectralPayload_info
    ((le_split 4 w0 ++ le_split 4 points) ++ tail)
  = {| si_sensor := w0 mod 2 ^ 8;
       si_fiber := (w0 / 2 ^ 8) mod 2 ^ 4;
       si_channel := (w0 / 2 ^ 12) mod 2 ^ 4;
       si_points := points |}.
Proof.
  intros H0 H1.
  destruct (fields_of_two_words w0 points tail H0 H1) as [F0 F4].
  unfold processPacket_spectralPayload_info.
  rewrite F0, F4, sensor_id_mod, fiber_id_mod, channel_id_mod.
  reflexivity.
Qed.

Lemma spectral_info_round_trip_witness :
  processPacket_spectralPayload_info
    ((le_split 4 0xABCD1205 ++ le_split 4 300) ++ [])
  = {| si_sensor := 5; si_fiber := 2; si_channel := 1; si_points := 300 |}.
Proof.
  rewrite (spectral_info_round_trip 0xABCD1205 300 []) by lia.
  reflexivity.
Defined.

(** ** The class of a decoded wavelength *)

Lemma low_bit_positive (m : Z) :
  Z.testbit m 0 = true -> 0 <= m -> exists p, m = Zpos p.
Proof.
  intros Hbit Hm. destruct m as [|p|p].
  - discriminate Hbit.
  - exists p. reflexivity.
  - lia.
Qed.

Lemma wavelength_bits_fields (peak_data : list Z) :
  let x := wavelength_bits peak_data in
  (exists p, Z.land x (Z.ones 52) = Zpos p)
  /\ Z.land (Z.shiftr x 52) 0x7ff = (word peak_data 1 / 2 ^ 20) mod 2 ^ 11.
Proof.
  intros x. subst x.
  unfold wavelength_bits, peak_value.
  change (word [?a; ?b] 0) with a. change (word [?a; ?b] 1) with b.
  unfold uint32_t.
  change ((Z.lnot 0xffff) mod 2 ^ 32) with (Z.shiftl (Z.ones 16) 16).
  change 0x7fff with (Z.ones 15). change 0x7ff with (Z.ones 11).
  split.
  - apply low_bit_positive.
    + rewrite Z.land_spec, Z.lor_spec, Z.testbit_mod_pow2 by lia.
      rewrite Z.lor_spec.
      change (Z.testbit (Z.ones 15) 0) with true.
      change (Z.testbit (Z.ones 52) 0) with true.
      change (0 <? 32) with true.
      rewrite orb_true_r. reflexivity.
    + apply Z.land_nonneg. right.
      change (Z.ones 52) with 4503599627370495. lia.
  - rewrite <- Z.shiftr_div_pow2 by lia. bits.
Qed.

(** X7: the double that [wavelength] reads is never a zero and never an
    infinity, because the low 16 bits of its pattern are forced to
    0x7FFF: it is a NaN exactly when bits 20-30 of the second word (the
    exponent field) are all ones, and a nonzero finite number otherwise. *)
Theorem wavelength_never_zero_or_infinite (peak_data : list Z) :
  let x := wavelength_bits peak_data in
  wavelength peak_data = SF2Prim (spec_of_bits x)
  /\ (forall s, spec_of_bits x <> S754_zero s)
  /\ (forall s, spec_of_bits x <> S754_infinity s)
  /\ (spec_of_bits x = S754_nan
      <-> (word peak_data 1 / 2 ^ 20) mod 2 ^ 11 = 0x7ff)
  /\ ((word peak_data 1 / 2 ^ 20) mod 2 ^ 11 <> 0x7ff ->
      exists s m e, spec_of_bits x = S754_finite s m e).
Proof.
  intros x.
  destruct (wavelength_bits_fields peak_data) as [[p Hm] He].
  fold x in Hm, He.
  split; [reflexivity|].
  unfold spec_of_bits. rewrite Hm, He.
  set (e := (word peak_data 1 / 2 ^ 20) mod 2 ^ 11).
  destruct (Z.eqb_spec e 0) as [E0 | E0].
  - rewrite E0.
    split; [discriminate|]. split; [discriminate|].
    split; [split; [discriminate | intros H; discriminate H]|].
    intros _. do 3 eexists. reflexivity.
  - destruct (Z.eqb_spec e 0x7ff) as [E1 | E1].
    + cbn [Z.eqb].
      split; [discriminate|]. split; [discriminate|].
      split; [split; [intros _; exact E1 | reflexivity]|].
      intros H. contradiction.
    + cbn [Z.lor].
      split; [discriminate|]. split; [discriminate|].
      split; [split; [discriminate | intros H; contradiction]|].
      intros _. do 3 eexists. reflexivity.
Qed.

Example wavelength_classes :
  spec_of_bits (wavelength_bits [0x00000000; 0x00000000])
  = S754_finite false 32767 (-1074)
  /\ spec_of_bits (wavelength_bits [0x00000000; 0x7FF00000]) = S754_nan
  /\ spec_of_bits (wavelength_bits [0x89A01205; 0x3EB9E1B0])
     = S754_finite false 7285022757257215 (-72).
Proof. repeat split. Qed.

(** ** Calibration in binary64 *)

Lemma calibration_constants :
  exists m1 e1 m2 e2 m3 e3,
    Prim2SF (dlit 1 0 - dlit 28 2)%double = S754_finite false m1 e1
    /\ Prim2SF (dlit 1 0 / dlit 460 0 / dlit 2986 5)%double
       = S754_finite false m2 e2
    /\ Prim2SF (dlit 1000 0) = S754_finite false m3 e3.
Proof. vm_compute. do 6 eexists. repeat split. Qed.

Lemma calibrationForce_binary64_zero_at_reference_witness :
  Prim2SF (calibrationForce 0x1.9bf2f87826ce4p-20%float
                            0x1.9bf2f87826ce4p-20%float)
  = S754_zero false.
Proof.
  eapply calibrationForce_binary64_zero_at_reference.
  vm_compute. reflexivity.
Defined.

(** X9: [calibrationForce] does not guard against a zero reference.  In
    binary64 a zero reference with a finite nonzero measured wavelength
    gives an infinite force, whose sign is the sign of the wavelength
    against the sign of the zero, and a zero reference with a zero
    wavelength gives NaN. *)
Theorem calibrationForce_binary64_zero_reference
        (reference measured : float) (s0 : bool) :
  Prim2SF reference = S754_zero s0 ->
  (forall s m e,
      Prim2SF measured = S754_finite s m e ->
      Prim2SF (calibrationForce reference measured)
      = S754_infinity (xorb s s0))
  /\ (forall s,
        Prim2SF measured = S754_zero s ->
        Prim2SF (calibrationForce reference measured) = S754_nan).
Proof.
  intros Href.
  destruct calibration_constants as (m1 & e1 & m2 & e2 & m3 & e3 & H1 & H2 & H3).
  unfold calibrationForce.
  set (one_minus_P := (dlit 1 0 - dlit 28 2)%double) in *.
  set (K := (dlit 1 0 / dlit 460 0 / dlit 2986 5)%double) in *.
  set (thousand := dlit 1000 0) in *.
  change (dmul (ddiv (ddiv (ddiv (dsub measured reference) reference)
                           one_minus_P) K) thousand)
    with (PrimFloat.mul
            (PrimFloat.div
               (PrimFloat.div
                  (PrimFloat.div (PrimFloat.sub measured reference) reference)
                  one_minus_P) K) thousand).
  rewrite mul_spec, !div_spec, sub_spec, Href, H1, H2, H3.
  split.
  - intros s m e Hm. rewrite Hm.
    destruct s, s0; reflexivity.
  - intros s Hm. rewrite Hm.
    destruct s, s0; reflexivity.
Qed.

Lemma calibrationForce_binary64_zero_reference_witness :
  Prim2SF (calibrationForce 0%float 0x1.9bf2f87826ce4p-20%float)
  = S754_infinity false
  /\ Prim2SF (calibrationForce 0%float 0%float) = S754_nan.
Proof.
  assert (Href : Prim2SF 0%float = S754_zero false) by reflexivity.
  destruct (calibrationForce_binary64_zero_reference
              0%float 0x1.9bf2f87826ce4p-20%float false Href) as [Hinf _].
  destruct (calibrationForce_binary64_zero_reference
              0%float 0%float false Href) as [_ Hnan].
  split.
  - refine (Hinf false _ _ _). vm_compute. reflexivity.
  - eapply Hnan. reflexivity.
Defined.

(** ** How much of the source a frame takes *)

Lemma asked_app (rs1 rs2 : list (buffer * Z)) :
  asked (rs1 ++ rs2) = (asked rs1 + asked rs2)%nat.
Proof.
  unfold asked. rewrite map_app, fold_right_app.
  generalize (map (fun r : buffer * Z => Z.to_nat (snd r)) rs1).
  intros l; induction l as [|x l IH]; cbn [fold_right]; lia.
Qed.

Lemma asked_repeat (into : buffer) (len : Z) (n : nat) :
  asked (repeat (into, len) n) = (n * Z.to_nat len)%nat.
Proof.
  unfold asked.
  induction n as [|n IH]; cbn [repeat map fold_right snd]; lia.
Qed.

Lemma consumed_app (t1 t2 : list call) :
  consumed (t1 ++ t2) = (consumed t1 + consumed t2)%nat.
Proof. unfold consumed. rewrite requests_app. apply asked_app. Qed.

Lemma advances_ret {A} (a : A) : advances (ret a).
Proof. intros s. reflexivity. Qed.

Lemma advances_log (c : call) : is_recv c = false -> advances (log c).
Proof. intros Hc s. destruct c; try discriminate Hc; reflexivity. Qed.

Lemma advances_recv (into : buffer) (buf : list byte) (len : Z) :
  advances (recv into buf len).
Proof.
  intros s. rewrite rest_recv, calls_recv.
  unfold consumed, asked; cbn [requests map fold_right snd].
  rewrite Nat.add_0_r. reflexivity.
Qed.

Lemma advances_bind {A B} (m : io A) (k : A -> io B) :
  advances m -> (forall a, advances (k a)) -> advances (bind m k).
Proof.
  intros Hm Hk s.
  rewrite rest_bind, calls_bind, consumed_app, Hk, Hm, skipn_skipn.
  f_equal. lia.
Qed.

Lemma advances_iterate {S} (body : S -> io S) :
  (forall st, advances (body st)) ->
  forall n st, advances (iterate n body st).
Proof.
  intros Hbody n; induction n as [|n IH]; intros st; cbn [iterate].
  - apply advances_ret.
  - apply advances_bind; [apply Hbody | intros st'; apply IH].
Qed.

Lemma advances_for_int {S} (body : S -> io S) (first bound : Z) (st : S) :
  (forall st', advances (body st')) -> advances (for_int first bound body st).
Proof.
  intros Hbody. unfold for_int.
  apply advances_bind; [apply advances_iterate; exact Hbody|].
  intros _. apply advances_ret.
Qed.

Ltac advance :=
  repeat first
    [ apply advances_ret | apply advances_log; reflexivity
    | apply advances_recv
    | apply advances_for_int; intros ?
    | apply advances_bind; [|intros ?] ].

Lemma advances_Spectral_payload (h : header_result) :
  advances (Spectral.payload h).
Proof.
  unfold Spectral.payload, Spectral.peak_element, Spectral.spectral_element,
    Spectral.tspeak_element.
  destruct (sweep_type h =? 0); [advance|].
  destruct (sweep_type h =? 1); [advance|].
  destruct (sweep_type h =? 2); advance.
Qed.

Lemma advances_Peak_payload (h : header_result) : advances (Peak.payload h).
Proof.
  unfold Peak.payload, Peak.peak_element, Peak.tspeak_element.
  destruct (sweep_type h =? 0); [advance|].
  destruct (sweep_type h =? 2); advance.
Qed.

Lemma advances_Spectral_frame : advances Spectral.frame.
Proof.
  unfold Spectral.frame.
  apply advances_bind; [apply advances_recv | intros buffer_header].
  cbv zeta.
  apply advances_bind; [apply advances_log; reflexivity | intros _].
  destruct (DO _ =? 16).
  - apply advances_bind; [apply advances_Spectral_payload | intros _].
    advance.
  - advance.
Qed.

Lemma advances_Peak_frame : advances Peak.frame.
Proof.
  unfold Peak.frame.
  apply advances_bind; [apply advances_recv | intros buffer_header].
  cbv zeta.
  apply advances_bind; [apply advances_log; reflexivity | intros _].
  apply advances_bind; [|intros _; advance].
  destruct (DO _ =? 16).
  - apply advances_Peak_payload.
  - apply advances_bind; [apply advances_recv | intros error_payload].
    apply advances_bind; [apply advances_log; reflexivity | intros _].
    apply advances_Peak_payload.
Qed.

Lemma advances_while_1 (body : io ctl) (fuel : nat) :
  advances body -> advances (while_1 fuel body).
Proof.
  intros Hbody. induction fuel as [|fuel IH]; cbn [while_1].
  - apply advances_ret.
  - apply advances_bind; [exact Hbody|].
    intros [|]; [exact IH | apply advances_ret].
Qed.

Lemma taken_app (t1 t2 : list call) :
  taken (t1 ++ t2) = (taken t1 + taken t2)%nat.
Proof.
  unfold taken. rewrite map_app, fold_right_app.
  match goal with |- context [map ?f t1] => generalize (map f t1) end.
  intros l; induction l as [|x l IH]; cbn [fold_right]; lia.
Qed.

Lemma takes_ret {A} (a : A) : takes (ret a).
Proof. intros s. cbn. repeat split; lia. Qed.

Lemma takes_log (c : call) : is_recv c = false -> takes (log c).
Proof.
  intros Hc s. destruct c; try discriminate Hc; cbn; repeat split; lia.
Qed.

Lemma takes_recv (into : buffer) (buf : list byte) (len : Z) :
  takes (recv into buf len).
Proof.
  intros s. rewrite rest_recv, calls_recv.
  unfold consumed, asked, taken; cbn [requests map fold_right snd].
  rewrite Nat2Z.id, length_firstn, !Nat.add_0_r.
  destruct (Nat.le_ge_cases (Z.to_nat len) (length s)) as [Hle | Hge].
  - rewrite Nat.min_l by exact Hle. repeat split; lia.
  - rewrite Nat.min_r by exact Hge.
    rewrite (skipn_all2 s) by exact Hge. rewrite skipn_all.
    repeat split; lia.
Qed.

Lemma takes_bind {A B} (m : io A) (k : A -> io B) :
  takes m -> (forall a, takes (k a)) -> takes (bind m k).
Proof.
  intros Hm Hk s.
  destruct (Hm s) as (Hrest & Hlen & Hask).
  destruct (Hk (value (m s)) (rest (m s))) as (Hrest' & Hlen' & Hask').
  rewrite rest_bind, calls_bind, taken_app, consumed_app, Hrest'.
  set (n1 := taken (calls (m s))) in *.
  set (n2 := taken (calls (k (value (m s)) (rest (m s))))) in *.
  set (a2 := consumed (calls (k (value (m s)) (rest (m s))))) in *.
  rewrite Hrest in Hlen' |- *.
  rewrite length_skipn in Hlen'.
  rewrite skipn_skipn.
  repeat split; [f_equal; lia | lia | lia].
Qed.

Lemma takes_iterate {S} (body : S -> io S) :
  (forall st, takes (body st)) ->
  forall n st, takes (iterate n body st).
Proof.
  intros Hbody n; induction n as [|n IH]; intros st; cbn [iterate].
  - apply takes_ret.
  - apply takes_bind; [apply Hbody | intros st'; apply IH].
Qed.

Lemma takes_for_int {S} (body : S -> io S) (first bound : Z) (st : S) :
  (forall st', takes (body st')) -> takes (for_int first bound body st).
Proof.
  intros Hbody. unfold for_int.
  apply takes_bind; [apply takes_iterate; exact Hbody|].
  intros _. apply takes_ret.
Qed.

Ltac take :=
  repeat first
    [ apply takes_ret | apply takes_log; reflexivity
    | apply takes_recv
    | apply takes_for_int; intros ?
    | apply takes_bind; [|intros ?] ].

Lemma takes_Peak_payload (h : header_result) : takes (Peak.payload h).
Proof.
  unfold Peak.payload, Peak.peak_element, Peak.tspeak_element.
  destruct (sweep_type h =? 0); [take|].
  destruct (sweep_type h =? 2); take.
Qed.

Lemma takes_Peak_frame : takes Peak.frame.
Proof.
  unfold Peak.frame.
  apply takes_bind; [apply takes_recv | intros buffer_header].
  cbv zeta.
  apply takes_bind; [apply takes_log; reflexivity | intros _].
  apply takes_bind; [|intros _; take].
  destruct (DO _ =? 16).
  - apply takes_Peak_payload.
  - apply takes_bind; [apply takes_recv | intros error_payload].
    apply takes_bind; [apply takes_log; reflexivity | intros _].
    apply takes_Peak_payload.
Qed.

Lemma takes_while_1 (body : io ctl) (fuel : nat) :
  takes body -> takes (while_1 fuel body).
Proof.
  intros Hbody. induction fuel as [|fuel IH]; cbn [while_1].
  - apply takes_ret.
  - apply takes_bind; [exact Hbody|].
    intros [|]; [exact IH | apply takes_ret].
Qed.

Lemma served_taken (t : list call) : served t -> taken t = consumed t.
Proof.
  unfold served, taken, consumed, asked.
  induction 1 as [|c t Hc _ IH]; [reflexivity|].
  destruct c; cbn [requests map fold_right snd]; try exact IH.
  rewrite IH, Hc. reflexivity.
Qed.

Lemma serves_ret {A} (a : A) : serves (ret a).
Proof. intros s _. constructor. Qed.

Lemma serves_log (c : call) : is_recv c = false -> serves (log c).
Proof.
  intros Hc s _. rewrite calls_log.
  destruct c; try discriminate Hc; repeat constructor.
Qed.

Lemma serves_recv (into : buffer) (buf : list byte) (len : Z) :
  0 <= len -> serves (recv into buf len).
Proof.
  intros Hlen s. rewrite calls_recv.
  unfold consumed, asked; cbn [requests map fold_right snd].
  intros Hs. repeat constructor.
  rewrite length_firstn, Nat.min_l by lia. lia.
Qed.

Lemma serves_bind {A B} (m : io A) (k : A -> io B) :
  advances m -> serves m -> (forall a, serves (k a)) -> serves (bind m k).
Proof.
  intros Hadv Hm Hk s. rewrite calls_bind, consumed_app. intros Hs.
  apply Forall_app. split.
  - apply Hm. lia.
  - apply Hk.
    set (a2 := consumed (calls (k (value (m s)) (rest (m s))))) in *.
    rewrite (Hadv s), length_skipn. lia.
Qed.

Lemma serves_iterate {S} (body : S -> io S) :
  (forall st, advances (body st)) -> (forall st, serves (body st)) ->
  forall n st, serves (iterate n body st).
Proof.
  intros Hadv Hbody n; induction n as [|n IH]; intros st; cbn [iterate].
  - apply serves_ret.
  - apply serves_bind; [apply Hadv | apply Hbody | intros st'; apply IH].
Qed.

Lemma serves_for_int {S} (body : S -> io S) (first bound : Z) (st : S) :
  (forall st', advances (body st')) -> (forall st', serves (body st')) ->
  serves (for_int first bound body st).
Proof.
  intros Hadv Hbody. unfold for_int.
  apply serves_bind;
    [apply advances_iterate; exact Hadv
    | apply serves_iterate; assumption
    | intros _; apply serves_ret].
Qed.

Ltac serve :=
  repeat first
    [ apply serves_ret | apply serves_log; reflexivity
    | apply serves_recv; unfold HEADER_SIZE, PEAK_PAYLOAD_SIZE,
        TSPEAK_PAYLOAD_SIZE, ERROR_PAYLOAD_SIZE, FLAG_SIZE; lia
    | apply serves_bind; [solve [advance] | |intros ?] ].

Lemma serves_Peak_peak_element (b : list byte) : serves (Peak.peak_element b).
Proof. unfold Peak.peak_element. serve. Qed.

Lemma serves_Peak_tspeak_element (b : list byte) :
  serves (Peak.tspeak_element b).
Proof. unfold Peak.tspeak_element. serve. Qed.

Lemma advances_Peak_peak_element (b : list byte) :
  advances (Peak.peak_element b).
Proof. unfold Peak.peak_element. advance. Qed.

Lemma advances_Peak_tspeak_element (b : list byte) :
  advances (Peak.tspeak_element b).
Proof. unfold Peak.tspeak_element. advance. Qed.

Lemma serves_Peak_payload (h : header_result) : serves (Peak.payload h).
Proof.
  unfold Peak.payload.
  destruct (sweep_type h =? 0).
  - apply serves_for_int;
      [apply advances_Peak_peak_element | apply serves_Peak_peak_element].
  - destruct (sweep_type h =? 2); [|apply serves_ret].
    apply serves_for_int;
      [apply advances_Peak_tspeak_element | apply serves_Peak_tspeak_element].
Qed.

Lemma serves_Peak_frame : serves Peak.frame.
Proof.
  unfold Peak.frame.
  apply serves_bind;
    [apply advances_recv | apply serves_recv; unfold HEADER_SIZE; lia
    | intros buffer_header].
  cbv zeta.
  apply serves_bind;
    [apply advances_log; reflexivity | apply serves_log; reflexivity
    | intros _].
  apply serves_bind.
  - destruct (DO _ =? 16); [apply advances_Peak_payload|].
    apply advances_bind; [apply advances_recv | intros error_payload].
    apply advances_bind; [apply advances_log; reflexivity | intros _].
    apply advances_Peak_payload.
  - destruct (DO _ =? 16); [apply serves_Peak_payload|].
    apply serves_bind;
      [apply advances_recv | apply serves_recv; unfold ERROR_PAYLOAD_SIZE; lia
      | intros error_payload].
    apply serves_bind;
      [apply advances_log; reflexivity | apply serves_log; reflexivity
      | intros _].
    apply serves_Peak_payload.
  - intros _.
    apply serves_bind;
      [apply advances_recv | apply serves_recv; unfold FLAG_SIZE; lia
      | intros _; apply serves_ret].
Qed.

Lemma consumed_Peak_frame (s : list byte) :
  consumed (calls (Peak.frame s))
  = (16 + (if (DO (header_of s) =? 16)%Z then 0 else 8)
     + asked (Peak.payload_requests (header_of s)) + 8)%nat.
Proof.
  unfold consumed.
  rewrite requests_Peak_frame.
  set (h := header_of s).
  change ((Header_buffer, HEADER_SIZE)
          :: (if DO h =? 16 then [] else [(Error_buffer, ERROR_PAYLOAD_SIZE)])
          ++ Peak.payload_requests h ++ [(Flag_buffer, FLAG_SIZE)])
    with ([(Header_buffer, HEADER_SIZE)]
          ++ (if DO h =? 16 then [] else [(Error_buffer, ERROR_PAYLOAD_SIZE)])
          ++ Peak.payload_requests h ++ [(Flag_buffer, FLAG_SIZE)]).
  rewrite !asked_app.
  destruct (DO h =? 16); cbn; lia.
Qed.

(** X10: in [read_peak_data.c] one frame asks the source for
    16 bytes for the header, 8 more for an error payload when the data
    offset is not 16, the element size times the number of elements
    (8 * (DL/8) for sweep type 0, 12 * (DL/12) for sweep type 2, none
    otherwise) and 8 for the flag.  Whatever the source holds, the frame
    and every run of [main] leave it advanced by the number of bytes
    their [recv] calls returned, never more than the source held nor
    more than was asked for.  When the source holds all the bytes the
    frame asks for, every [recv] of the frame returns the count it asked
    for, the source is left shorter by exactly that many bytes, and the
    next iteration of [main] reads its header right after them.  When
    the source holds fewer, the frame takes all of it and no more. *)
Theorem frames_advance_the_source (s : list byte) :
  let h := header_of s in
  let frame_bytes :=
    (16 + (if (DO h =? 16)%Z then 0 else 8)
     + asked (Peak.payload_requests h) + 8)%nat in
  consumed (calls (Peak.frame s)) = frame_bytes
  /\ asked (Peak.payload_requests h)
     = (if sweep_type h =? 0 then
          (Z.to_nat (Z.quot (DL h) PEAK_PAYLOAD_SIZE) * 8)%nat
        else if sweep_type h =? 2 then
          (Z.to_nat (Z.quot (DL h) TSPEAK_PAYLOAD_SIZE) * 12)%nat
        else 0%nat)
  /\ (rest (Peak.frame s) = skipn (taken (calls (Peak.frame s))) s
      /\ (length (rest (Peak.frame s)) + taken (calls (Peak.frame s))
          = length s)%nat
      /\ (taken (calls (Peak.frame s)) <= frame_bytes)%nat)
  /\ (forall fuel,
        rest (Peak.main fuel s) = skipn (taken (calls (Peak.main fuel s))) s
        /\ (length (rest (Peak.main fuel s))
            + taken (calls (Peak.main fuel s)) = length s)%nat
        /\ calls (Peak.main (S fuel) s)
           = calls (Peak.frame s)
             ++ calls (Peak.main fuel (rest (Peak.frame s))))
  /\ ((frame_bytes <= length s)%nat ->
      served (calls (Peak.frame s))
      /\ taken (calls (Peak.frame s)) = frame_bytes
      /\ rest (Peak.frame s) = skipn frame_bytes s
      /\ length (rest (Peak.frame s)) = (length s - frame_bytes)%nat
      /\ forall fuel,
          calls (Peak.main (S fuel) s)
          = calls (Peak.frame s)
            ++ calls (Peak.main fuel (skipn frame_bytes s)))
  /\ ((length s < frame_bytes)%nat ->
      taken (calls (Peak.frame s)) = length s
      /\ rest (Peak.frame s) = []).
Proof.
  intros h frame_bytes.
  pose proof (consumed_Peak_frame s) as Hasked.
  fold h in Hasked. fold frame_bytes in Hasked.
  destruct (takes_Peak_frame s) as (Hrest & Hlen & Hle).
  assert (Hunroll : forall fuel,
             calls (Peak.main (S fuel) s)
             = calls (Peak.frame s)
               ++ calls (Peak.main fuel (rest (Peak.frame s)))).
  { intros fuel. unfold Peak.main; cbn [while_1].
    rewrite calls_bind, value_Peak_frame. reflexivity. }
  split; [exact Hasked|].
  split.
  { unfold Peak.payload_requests.
    destruct (sweep_type h =? 0); [apply asked_repeat|].
    destruct (sweep_type h =? 2); [apply asked_repeat | reflexivity]. }
  split.
  { split; [exact Hrest|]. split; [|lia].
    rewrite Hrest at 1. rewrite length_skipn. lia. }
  split.
  { intros fuel.
    destruct (takes_while_1 Peak.frame fuel takes_Peak_frame s)
      as (Hrest' & Hlen' & _).
    fold (Peak.main fuel) in Hrest', Hlen'.
    split; [exact Hrest'|]. split; [|apply Hunroll].
    rewrite Hrest' at 1. rewrite length_skipn. lia. }
  split.
  - intros Hs.
    assert (Hserved : served (calls (Peak.frame s)))
      by (apply serves_Peak_frame; lia).
    pose proof (served_taken _ Hserved) as Htaken.
    rewrite Hasked in Htaken.
    split; [exact Hserved|]. split; [exact Htaken|].
    assert (Hr : rest (Peak.frame s) = skipn frame_bytes s)
      by (rewrite <- Htaken; exact Hrest).
    split; [exact Hr|].
    split; [rewrite Hr, length_skipn; reflexivity|].
    intros fuel. rewrite Hunroll, Hr. reflexivity.
  - intros Hs.
    pose proof (advances_Peak_frame s) as Hadv.
    rewrite Hasked, skipn_all2 in Hadv by lia.
    split; [|exact Hadv].
    assert (length (rest (Peak.frame s)) = length s - taken (calls (Peak.frame s)))%nat
      by (rewrite Hrest at 1; apply length_skipn).
    rewrite Hadv in H. cbn [length] in H. lia.
Qed.

Lemma frames_advance_the_source_witness :
  served (calls (Peak.frame error_frame_peak))
  /\ taken (calls (Peak.frame error_frame_peak)) = 40%nat
  /\ rest (Peak.frame error_frame_peak) = skipn 40 error_frame_peak.
Proof.
  destruct (frames_advance_the_source error_frame_peak)
    as (_ & _ & _ & _ & H & _).
  destruct H as (Hserved & Htaken & Hrest & _); [vm_compute; lia|].
  split; [exact Hserved|]. split; [exact Htaken | exact Hrest].
Defined.

Lemma whole_elements (dl size : Z) :
  0 < size -> 0 <= dl -> dl mod size = 0 ->
  Z.of_nat (Z.to_nat (Z.quot dl size) * Z.to_nat size) = dl.
Proof.
  intros Hsize Hdl Hmod.
  rewrite Z.quot_div_nonneg by lia.
  assert (0 <= dl / size) by (apply Z.div_pos; lia).
  rewrite Nat2Z.inj_mul, !Z2Nat.id by lia.
  pose proof (Z.div_mod dl size ltac:(lia)). lia.
Qed.

(** X11: in [read_spectral_data.c], for a frame with data offset 16
    whose data length is below 2^31 and is a whole number of elements (a
    multiple of 8 for sweep types 0 and 1, at least 8 for sweep type 1, a
    multiple of 12 for sweep type 2), the packet size the header decoder
    shows, [offset + length + 8], is exactly the number of bytes the
    frame asks the source for. *)
Theorem packet_size_is_bytes_taken (s : list byte) :
  let h := header_of s in
  let dl := dataLength (header_shown h) in
  DO h = 16 -> 0 <= dl < 2 ^ 31 ->
  (sweep_type h = 0 /\ dl mod 8 = 0)
  \/ (sweep_type h = 1 /\ dl mod 8 = 0 /\ 8 <= dl)
  \/ (sweep_type h = 2 /\ dl mod 12 = 0) ->
  Z.of_nat (consumed (calls (Spectral.frame s)))
  = totalPacketSize (header_shown h)
  /\ rest (Spectral.frame s) = skipn (Z.to_nat (totalPacketSize (header_shown h))) s.
Proof.
  intros h dl Hdo Hdl Hcase.
  pose proof (header_ints
                (overwrite (zeroed HEADER_SIZE)
                           (firstn (Z.to_nat HEADER_SIZE) s))) as I.
  cbv zeta in I. fold (header_of s) in I. fold h in I. fold dl in I.
  destruct I as (_ & HDL & Hr & Hoff).
  assert (EDL : DL h = dl) by lia.
  assert (Esize : totalPacketSize (header_shown h) = dl + 24).
  { change (totalPacketSize (header_shown h))
      with (uint32_t (dataOffset (header_shown h) + dl + 8)).
    rewrite <- Hoff, Hdo. unfold uint32_t.
    rewrite Z.mod_small by lia. lia. }
  assert (Easked : Z.of_nat (asked (Spectral.payload_requests h)) = dl).
  { unfold Spectral.payload_requests. rewrite EDL.
    destruct Hcase as [[Hs Hm] | [[Hs [Hm Hge]] | [Hs Hm]]];
      rewrite Hs; cbn [Z.eqb Pos.eqb].
    - rewrite asked_repeat. apply whole_elements; [reflexivity | lia | exact Hm].
    - change ((Payload_buffer, SPECTRAL_PAYLOAD_SIZE)
              :: repeat (Payload_buffer, SPECTRAL_PAYLOAD_SIZE)
                   (Z.to_nat (Z.quot dl SPECTRAL_PAYLOAD_SIZE - 1)))
        with (repeat (Payload_buffer, SPECTRAL_PAYLOAD_SIZE) 1
              ++ repeat (Payload_buffer, SPECTRAL_PAYLOAD_SIZE)
                   (Z.to_nat (Z.quot dl SPECTRAL_PAYLOAD_SIZE - 1))).
      rewrite asked_app, !asked_repeat.
      unfold SPECTRAL_PAYLOAD_SIZE.
      rewrite Z.quot_div_nonneg by lia.
      assert (1 <= dl / 8) by (apply Z.div_le_lower_bound; lia).
      rewrite Nat2Z.inj_add, !Nat2Z.inj_mul, !Z2Nat.id by lia.
      pose proof (Z.div_mod dl 8 ltac:(lia)). change (Z.of_nat 1) with 1. lia.
    - rewrite asked_repeat. apply whole_elements; [reflexivity | lia | exact Hm]. }
  assert (E : Z.of_nat (consumed (calls (Spectral.frame s))) = dl + 24).
  { unfold consumed. rewrite requests_Spectral_frame. fold h.
    rewrite Hdo. cbn [Z.eqb Pos.eqb].
    change ((Header_buffer, HEADER_SIZE)
            :: Spectral.payload_requests h ++ [(Flag_buffer, FLAG_SIZE)])
      with ([(Header_buffer, HEADER_SIZE)]
            ++ Spectral.payload_requests h ++ [(Flag_buffer, FLAG_SIZE)]).
    rewrite !asked_app, !Nat2Z.inj_add, Easked. cbn. lia. }
  split; [lia|].
  rewrite advances_Spectral_frame. f_equal. lia.
Qed.

Lemma packet_size_is_bytes_taken_witness :
  Z.of_nat (consumed (calls (Spectral.frame spectral_frame_40))) = 64
  /\ rest (Spectral.frame spectral_frame_40) = skipn 64 spectral_frame_40.
Proof.
  assert (Hdo : DO (header_of spectral_frame_40) = 16) by reflexivity.
  assert (Hdl : 0 <= dataLength (header_shown (header_of spectral_frame_40))
                < 2 ^ 31) by (vm_compute; split; congruence).
  destruct (packet_size_is_bytes_taken spectral_frame_40 Hdo Hdl) as [H1 H2].
  - right; left. vm_compute. repeat split. discriminate.
  - split; [exact H1 | exact H2].
Defined.

(** ** Payload loops, element by element *)

Lemma last_cons_default {A} (a : A) (l : list A) (d d' : A) :
  last (a :: l) d = last (a :: l) d'.
Proof.
  revert a. induction l as [|b l IH]; intros a; [reflexivity|].
  change (last (a :: b :: l) d) with (last (b :: l) d).
  change (last (a :: b :: l) d') with (last (b :: l) d').
  apply IH.
Qed.

Section Elements.
Variable size : nat.
Variable out : list byte -> list call.
Variable element : list byte -> io (list byte).

Hypothesis element_calls : forall buf s,
  calls (element buf s)
  = call_recv Payload_buffer (Z.of_nat size) (Z.of_nat (length (firstn size s)))
    :: out (overwrite buf (firstn size s)).
Hypothesis element_value : forall buf s,
  value (element buf s) = overwrite buf (firstn size s).
Hypothesis element_rest : forall buf s, rest (element buf s) = skipn size s.
Hypothesis out_records : forall buf, records (out buf) = out buf.


Lemma elements_in_order (n : nat) :
  forall buf s,
    (length buf <= size)%nat -> (size * n <= length s)%nat ->
    records (calls (iterate n element buf s)) = flat_map out (chunks size n s)
    /\ rest (iterate n element buf s) = skipn (size * n) s
    /\ value (iterate n element buf s) = last (chunks size n s) buf.
Proof.
  induction n as [|n IH]; intros buf s Hbuf Hs; cbn [iterate chunks flat_map].
  - rewrite Nat.mul_0_r. repeat split.
  - assert (Hgot : length (firstn size s) = size)
      by (rewrite length_firstn; lia).
    rewrite calls_bind, value_bind, rest_bind.
    rewrite element_calls, element_value, element_rest.
    rewrite overwrite_full by lia.
    destruct (IH (firstn size s) (skipn size s)) as (IH1 & IH2 & IH3);
      [lia | rewrite length_skipn; lia |].
    rewrite IH2, IH3, skipn_skipn.
    cbn [app records filter is_recv negb].
    change (filter (fun c => negb (is_recv c))) with records.
    rewrite records_app, out_records, IH1.
    repeat split.
    + f_equal. lia.
    + destruct n as [|n']; [reflexivity|].
      cbn [chunks].
      change (last (firstn size s :: ?c :: ?l) buf) with (last (c :: l) buf).
      apply last_cons_default.
Qed.


End Elements.

Lemma records_for_int {S} (first bound : Z) (body : S -> io S) (st : S)
      (s : list byte) :
  records (calls (for_int first bound body st s))
  = records (calls (iterate (Z.to_nat (bound - first)) body st s)).
Proof.
  unfold for_int. rewrite calls_bind, calls_ret, app_nil_r. reflexivity.
Qed.

Lemma records_Spectral_frame_normal (s : list byte) :
  DO (header_of s) = 16 ->
  records (calls (Spectral.frame s))
  = call_Header (header_of s)
    :: records (calls (Spectral.payload (header_of s) (skipn 16 s))).
Proof.
  intros Hdo.
  unfold Spectral.frame; cbv zeta.
  rewrite calls_bind, calls_recv, value_recv, rest_recv.
  rewrite calls_bind, calls_log, rest_log.
  fold (header_of s). rewrite Hdo. cbn [Z.eqb Pos.eqb].
  rewrite calls_bind, calls_bind, calls_recv, calls_ret.
  cbn [app records filter is_recv negb].
  change (filter (fun c => negb (is_recv c))) with records.
  rewrite records_app. cbn [records filter is_recv negb].
  rewrite app_nil_r. reflexivity.
Qed.

Lemma records_Peak_frame_normal (s : list byte) :
  DO (header_of s) = 16 ->
  records (calls (Peak.frame s))
  = call_Header (header_of s)
    :: records (calls (Peak.payload (header_of s) (skipn 16 s))).
Proof.
  intros Hdo.
  unfold Peak.frame; cbv zeta.
  rewrite calls_bind, calls_recv, value_recv, rest_recv.
  rewrite calls_bind, calls_log, rest_log.
  fold (header_of s). rewrite calls_bind, Hdo. cbn [Z.eqb Pos.eqb].
  rewrite calls_bind, calls_recv, calls_ret.
  cbn [app records filter is_recv negb].
  change (filter (fun c => negb (is_recv c))) with records.
  rewrite records_app. cbn [records filter is_recv negb].
  rewrite app_nil_r. reflexivity.
Qed.

Lemma flat_map_single {A B} (f : A -> B) (l : list A) :
  flat_map (fun a => [f a]) l = map f l.
Proof. induction l as [|a l IH]; cbn; [reflexivity | rewrite IH; reflexivity]. Qed.

Lemma records_Spectral_peak_loop (n : nat) (s : list byte) :
  (8 * n <= length s)%nat ->
  records (calls (iterate n Spectral.peak_element (zeroed PEAK_PAYLOAD_SIZE) s))
  = map (fun element => call_Payload (processPacket_Payload element))
        (chunks 8 n s).
Proof.
  intros Hs. rewrite <- flat_map_single.
  apply (elements_in_order 8
           (fun b => [call_Payload (processPacket_Payload b)])
           Spectral.peak_element);
    solve [reflexivity | intros; reflexivity | exact Hs].
Qed.

Lemma records_Spectral_tspeak_loop (n : nat) (s : list byte) :
  (12 * n <= length s)%nat ->
  records (calls (iterate n Spectral.tspeak_element (zeroed TSPEAK_PAYLOAD_SIZE) s))
  = map (fun element => call_tsPayload (processPacket_tsPayload element))
        (chunks 12 n s).
Proof.
  intros Hs. rewrite <- flat_map_single.
  apply (elements_in_order 12
           (fun b => [call_tsPayload (processPacket_tsPayload b)])
           Spectral.tspeak_element);
    solve [reflexivity | intros; reflexivity | exact Hs].
Qed.

(** X12: in [read_spectral_data.c], a frame with data offset 16 and sweep
    type 0 yields the header record followed by one peak record for each
    of the [DL / 8] consecutive 8-byte elements after the header, in
    arrival order; with sweep type 2 it yields one time-stamped peak
    record for each of the [DL / 12] consecutive 12-byte elements.  (The
    source is assumed to hold the whole payload.) *)
Theorem Spectral_peak_frame_records (s : list byte) :
  let h := header_of s in
  DO h = 16 ->
  (sweep_type h = 0 ->
   let n := Z.to_nat (Z.quot (DL h) PEAK_PAYLOAD_SIZE) in
   (16 + 8 * n <= length s)%nat ->
   records (calls (Spectral.frame s))
   = call_Header h
     :: map (fun element => call_Payload (processPacket_Payload element))
            (chunks 8 n (skipn 16 s)))
  /\ (sweep_type h = 2 ->
      let n := Z.to_nat (Z.quot (DL h) TSPEAK_PAYLOAD_SIZE) in
      (16 + 12 * n <= length s)%nat ->
      records (calls (Spectral.frame s))
      = call_Header h
        :: map (fun element => call_tsPayload (processPacket_tsPayload element))
               (chunks 12 n (skipn 16 s))).
Proof.
  intros h Hdo.
  rewrite (records_Spectral_frame_normal s Hdo). fold h.
  unfold Spectral.payload.
  split; intros Hsweep; cbv zeta; intros Hs; rewrite Hsweep;
    cbn [Z.eqb Pos.eqb]; rewrite records_for_int, Z.sub_0_r; f_equal.
  - apply records_Spectral_peak_loop. rewrite length_skipn. lia.
  - apply records_Spectral_tspeak_loop. rewrite length_skipn. lia.
Qed.

Lemma Spectral_peak_frame_records_witness :
  let s := header_bytes (compose_info 1 0 0) 16 16 0
           ++ encode_peak 5 2 1 0x3EB9E1B089A02752
           ++ encode_peak 7 0 3 0x3EB9BF0DFF5C1234
           ++ le_split 8 1 in
  records (calls (Spectral.frame s))
  = call_Header (header_of s)
    :: map (fun element => call_Payload (processPacket_Payload element))
           (chunks 8 2 (skipn 16 s)).
Proof.
  intros s.
  assert (Hdo : DO (header_of s) = 16) by reflexivity.
  destruct (Spectral_peak_frame_records s Hdo) as [H0 _].
  apply (H0 eq_refl). vm_compute. lia.
Defined.

Lemma records_Peak_peak_loop (n : nat) (s : list byte) :
  (8 * n <= length s)%nat ->
  records (calls (iterate n Peak.peak_element (zeroed PEAK_PAYLOAD_SIZE) s))
  = flat_map
      (fun element =>
         [call_Payload (processPacket_Payload element);
          call_calibrationForce
            (Peak.calibrate (processPacket_Payload element))])
      (chunks 8 n s).
Proof.
  intros Hs.
  apply (elements_in_order 8
           (fun b => [call_Payload (processPacket_Payload b);
                      call_calibrationForce
                        (Peak.calibrate (processPacket_Payload b))])
           Peak.peak_element);
    solve [reflexivity | intros; reflexivity | exact Hs].
Qed.

Lemma records_Peak_tspeak_loop (n : nat) (s : list byte) :
  (12 * n <= length s)%nat ->
  records (calls (iterate n Peak.tspeak_element (zeroed TSPEAK_PAYLOAD_SIZE) s))
  = flat_map
      (fun element =>
         let r := processPacket_tsPayload element in
         [call_tsPayload r;
          call_calibrationForce (Peak.calibrate r);
          call_printf_force (pk_sensor r) (pk_fiber r) (pk_channel r)
            (force (Peak.calibrate r))])
      (chunks 12 n s).
Proof.
  intros Hs.
  apply (elements_in_order 12
           (fun b =>
              let r := processPacket_tsPayload b in
              [call_tsPayload r;
               call_calibrationForce (Peak.calibrate r);
               call_printf_force (pk_sensor r) (pk_fiber r) (pk_channel r)
                 (force (Peak.calibrate r))])
           Peak.tspeak_element);
    solve [reflexivity | intros; reflexivity | exact Hs].
Qed.

Lemma in_table_calibrated (r : peak_record) :
  in_table r -> calibrated r (Peak.calibrate r).
Proof.
  intros Hin. unfold calibrated, Peak.calibrate.
  destruct (FBGs_info_at (pk_channel r) (pk_fiber r) (pk_sensor r))
    as [reference|] eqn:E.
  - exists reference. split; reflexivity.
  - exfalso. revert E. apply FBGs_info_at_defined. exact Hin.
Qed.

(** X13: in [read_peak_data.c], a frame with data offset 16 and sweep
    type 0 whose [DL / 8] consecutive 8-byte elements all carry ids
    inside the table (channel 0..3, fibre 0, sensor 0..1) decodes each
    element in arrival order and calls [calibrationForce] on the table
    entry of the element's ids and its wavelength, printing nothing;
    with sweep type 2 it does the same for the [DL / 12] consecutive
    12-byte elements and prints sensor, fibre, channel and that force
    after each; with any other sweep type (spectral included) it decodes
    nothing after the header.  (The source is assumed to hold the whole
    payload.) *)
Theorem Peak_frame_records (s : list byte) :
  let h := header_of s in
  DO h = 16 ->
  (sweep_type h = 0 ->
   let n := Z.to_nat (Z.quot (DL h) PEAK_PAYLOAD_SIZE) in
   (16 + 8 * n <= length s)%nat ->
   Forall (fun element => in_table (processPacket_Payload element))
          (chunks 8 n (skipn 16 s)) ->
   records (calls (Peak.frame s))
   = call_Header h
     :: flat_map
          (fun element =>
             [call_Payload (processPacket_Payload element);
              call_calibrationForce
                (Peak.calibrate (processPacket_Payload element))])
          (chunks 8 n (skipn 16 s))
   /\ Forall (fun element =>
                let r := processPacket_Payload element in
                calibrated r (Peak.calibrate r))
             (chunks 8 n (skipn 16 s)))
  /\ (sweep_type h = 2 ->
      let n := Z.to_nat (Z.quot (DL h) TSPEAK_PAYLOAD_SIZE) in
      (16 + 12 * n <= length s)%nat ->
      Forall (fun element => in_table (processPacket_tsPayload element))
             (chunks 12 n (skipn 16 s)) ->
      records (calls (Peak.frame s))
      = call_Header h
        :: flat_map
             (fun element =>
                let r := processPacket_tsPayload element in
                [call_tsPayload r;
                 call_calibrationForce (Peak.calibrate r);
                 call_printf_force (pk_sensor r) (pk_fiber r) (pk_channel r)
                   (force (Peak.calibrate r))])
             (chunks 12 n (skipn 16 s))
      /\ Forall (fun element =>
                   let r := processPacket_tsPayload element in
                   calibrated r (Peak.calibrate r))
                (chunks 12 n (skipn 16 s)))
  /\ (sweep_type h <> 0 -> sweep_type h <> 2 ->
      records (calls (Peak.frame s)) = [call_Header h]).
Proof.
  intros h Hdo.
  rewrite (records_Peak_frame_normal s Hdo). fold h.
  unfold Peak.payload.
  split; [|split].
  - intros Hsweep; cbv zeta; intros Hs Hin. rewrite Hsweep. cbn [Z.eqb Pos.eqb].
    rewrite records_for_int, Z.sub_0_r. split.
    + f_equal. apply records_Peak_peak_loop. rewrite length_skipn. lia.
    + revert Hin. apply Forall_impl. intros element. apply in_table_calibrated.
  - intros Hsweep; cbv zeta; intros Hs Hin. rewrite Hsweep. cbn [Z.eqb Pos.eqb].
    rewrite records_for_int, Z.sub_0_r. split.
    + f_equal. apply records_Peak_tspeak_loop. rewrite length_skipn. lia.
    + revert Hin. apply Forall_impl. intros element. apply in_table_calibrated.
  - intros H0 H2.
    destruct (Z.eqb_spec (sweep_type h) 0); [contradiction|].
    destruct (Z.eqb_spec (sweep_type h) 2); [contradiction|].
    reflexivity.
Qed.

Lemma Peak_frame_records_witness :
  let s := header_bytes (compose_info 1 2 0) 16 12 0
           ++ encode_peak 0 0 0 0x3EB9BF0DFF5C1234 ++ le_split 4 1000
           ++ le_split 8 1 in
  records (calls (Peak.frame s))
  = [ call_Header (header_of s);
      call_tsPayload
        {| pk_sensor := 0; pk_fiber := 0; pk_channel := 0;
           pk_wavelength := 0x1.9bf0dff5c7fffp-20%float |};
      call_calibrationForce
        {| initial_wavelength := Some 0x1.9bf2f87826ce4p-20%float;
           force := Some (-0x1.84363de5d182ap-2)%float |};
      call_printf_force 0 0 0 (Some (-0x1.84363de5d182ap-2)%float) ].
Proof.
  intros s.
  assert (Hdo : DO (header_of s) = 16) by reflexivity.
  destruct (Peak_frame_records s Hdo) as (_ & H2 & _).
  destruct (H2 eq_refl) as [Hrecords _].
  - vm_compute. lia.
  - vm_compute. repeat constructor; discriminate.
  - rewrite Hrecords. vm_compute. reflexivity.
Defined.

(** ** An exhausted source *)

Lemma Peak_frame_dry :
  Peak.frame []
  = (Continue, [],
     [ call_recv Header_buffer HEADER_SIZE 0;
       call_Header (header_of []);
       call_recv Error_buffer ERROR_PAYLOAD_SIZE 0;
       call_errorPayload InternalError;
       call_recv Flag_buffer FLAG_SIZE 0 ]).
Proof. vm_compute. reflexivity. Qed.

(** X14: once the source is exhausted every [recv] returns 0 and leaves
    its zeroed buffer as it is, so the header decodes to data offset 0 and
    the frame is taken for an error frame with error id 0.
    [read_peak_data.c] then reports an internal error, reads the flag and
    starts over, iteration after iteration, without returning;
    [read_spectral_data.c] reports the internal error once and returns 0. *)
Theorem exhausted_source (fuel : nat) :
  DO (header_of []) = 0
  /\ calls (Peak.main fuel [])
     = concat
         (repeat
            [ call_recv Header_buffer HEADER_SIZE 0;
              call_Header (header_of []);
              call_recv Error_buffer ERROR_PAYLOAD_SIZE 0;
              call_errorPayload InternalError;
              call_recv Flag_buffer FLAG_SIZE 0 ]
            fuel)
  /\ value (Peak.main fuel []) = None
  /\ Spectral.main (S fuel) []
     = (Some 0, [],
        [ call_recv Header_buffer HEADER_SIZE 0;
          call_Header (header_of []);
          call_recv Error_buffer ERROR_PAYLOAD_SIZE 0;
          call_errorPayload InternalError ]).
Proof.
  split; [reflexivity|].
  split; [|split; [apply value_Peak_main|]].
  - unfold Peak.main.
    induction fuel as [|fuel IH]; cbn [while_1 repeat concat].
    + reflexivity.
    + rewrite calls_bind, Peak_frame_dry.
      unfold value, rest, calls at 1; cbn [fst snd].
      rewrite IH. reflexivity.
  - unfold Spectral.main; cbn [while_1].
    assert (E : Spectral.frame []
                = (Break, [],
                   [ call_recv Header_buffer HEADER_SIZE 0;
                     call_Header (header_of []);
                     call_recv Error_buffer ERROR_PAYLOAD_SIZE 0;
                     call_errorPayload InternalError ]))
      by (vm_compute; reflexivity).
    unfold bind. rewrite E. reflexivity.
Qed.




(** ** The force formula in binary64 *)

Lemma binary_round_aux_opp (s : bool) (m e : Z) (l : location) :
  binary_round_aux prec emax (negb s) m e l
  = SFopp (binary_round_aux prec emax s m e l).
Proof.
  unfold binary_round_aux.
  destruct (shr_fexp prec emax m e l) as [mrs' e'].
  destruct (shr_fexp prec emax
              (round_nearest_even (shr_m mrs') (loc_of_shr_record mrs'))
              e' loc_Exact) as [mrs'' e''].
  destruct (shr_m mrs'') as [|p|p]; [reflexivity | | reflexivity].
  destruct (e'' <=? emax - prec); reflexivity.
Qed.

Lemma xorb_negb_l (a b : bool) : xorb (negb a) b = negb (xorb a b).
Proof. destruct a, b; reflexivity. Qed.

Lemma SF64div_opp_l (x y : spec_float) :
  SF64div (SFopp x) y = SFopp (SF64div x y).
Proof.
  unfold SF64div, SFdiv.
  destruct x as [sx | sx | | sx mx ex], y as [sy | sy | | sy my ey];
    cbn [SFopp]; rewrite ?xorb_negb_l; try reflexivity.
  destruct (SFdiv_core_binary prec emax (Z.pos mx) ex (Z.pos my) ey)
    as [[mz ez] lz].
  apply binary_round_aux_opp.
Qed.

Lemma SF64mul_opp_l (x y : spec_float) :
  SF64mul (SFopp x) y = SFopp (SF64mul x y).
Proof.
  unfold SF64mul, SFmul.
  destruct x as [sx | sx | | sx mx ex], y as [sy | sy | | sy my ey];
    cbn [SFopp]; rewrite ?xorb_negb_l; try reflexivity.
  apply binary_round_aux_opp.
Qed.

(** C5 (as the code has it): [calibrationForce] computes in binary64.
    For every finite nonzero reference wavelength the force at the
    reference itself is a zero, equal to 0.  The force is
    [((measured - reference) / reference / (1 - 0.28)) / (1/460/0.02986) * 1000]
    with each constant and each operation rounded to binary64 (0.28 is
    0x1.1eb851eb851ecp-2, 0.02986 is 0x1.e939eadd590c1p-6); it depends on
    the measured wavelength only through the rounded difference
    [measured - reference], and changes sign with it. *)
Theorem calibrationForce_binary64_zero_and_formula (reference : float) :
  (forall s m e,
      Prim2SF reference = S754_finite s m e ->
      Prim2SF (calibrationForce reference reference) = S754_zero s
      /\ PrimFloat.eqb (calibrationForce reference reference) 0 = true)
  /\ (forall measured,
        calibrationForce reference measured
        = ((measured - reference) / reference / (1 - 0x1.1eb851eb851ecp-2)
           / (1 / 460 / 0x1.e939eadd590c1p-6) * 1000)%float)
  /\ (forall measured measured',
        (measured' - reference)%float = (measured - reference)%float ->
        calibrationForce reference measured'
        = calibrationForce reference measured)
  /\ (forall measured measured',
        (measured' - reference)%float = (- (measured - reference))%float ->
        calibrationForce reference measured'
        = (- calibrationForce reference measured)%float).
Proof.
  destruct calibration_constants as (m1 & e1 & m2 & e2 & m3 & e3 & H1 & H2 & H3).
  set (one_minus_P := (dlit 1 0 - dlit 28 2)%double) in *.
  set (K := (dlit 1 0 / dlit 460 0 / dlit 2986 5)%double) in *.
  set (thousand := dlit 1000 0) in *.
  assert (Shape : forall measured,
             calibrationForce reference measured
             = PrimFloat.mul
                 (PrimFloat.div
                    (PrimFloat.div
                       (PrimFloat.div (PrimFloat.sub measured reference)
                                      reference)
                       one_minus_P) K) thousand)
    by (intros; reflexivity).
  split; [|split; [|split]].
  - intros s m e Href.
    assert (Z : Prim2SF (calibrationForce reference reference) = S754_zero s).
    { rewrite Shape.
      rewrite mul_spec, !div_spec, sub_spec, Href, H1, H2, H3, SF64sub_diag.
      destruct s; reflexivity. }
    split; [exact Z|].
    rewrite FloatAxioms.eqb_spec, Z.
    destruct s; reflexivity.
  - intros measured. reflexivity.
  - intros measured measured' Hd. rewrite !Shape, Hd. reflexivity.
  - intros measured measured' Hd. rewrite !Shape, Hd.
    apply Prim2SF_inj.
    rewrite opp_spec, !mul_spec, !div_spec, opp_spec.
    rewrite !SF64div_opp_l, SF64mul_opp_l. reflexivity.
Qed.

Lemma calibrationForce_binary64_zero_and_formula_witness :
  Prim2SF (calibrationForce 0x1.9bf2f87826ce4p-20%float
                            0x1.9bf2f87826ce4p-20%float)
  = S754_zero false
  /\ PrimFloat.eqb (calibrationForce 0x1.9bf2f87826ce4p-20%float
                                     0x1.9bf2f87826ce4p-20%float) 0
     = true.
Proof.
  refine (proj1 (calibrationForce_binary64_zero_and_formula
                   0x1.9bf2f87826ce4p-20%float) false _ _ _).
  vm_compute. reflexivity.
Defined.

(** The statement of C5 fails in the arithmetic of the program.  At the
    table's reference 1534.63e-9, the wavelength differences 2^-40 and
    1.5 * 2^-41 and their sum are all recovered exactly by
    [measured - reference], yet the force at the sum is not the sum of
    the forces; and at an infinite reference, which is nonzero, the force
    at the reference is NaN and not 0. *)
Lemma calibrationForce_linear_counterexample :
  let reference := 0x1.9bf2f87826ce4p-20%float in
  let d1 := 0x1p-40%float in
  let d2 := 0x1.8p-41%float in
  FBGs_info_at 0 0 0 = Some reference
  /\ ((reference + d1) - reference = d1
      /\ (reference + d2) - reference = d2
      /\ (reference + (d1 + d2)) - reference = d1 + d2)%float
  /\ ~ force_additive reference d1 d2
  /\ ~ force_zero_at_reference infinity.
Proof.
  cbv zeta.
  split; [vm_compute; reflexivity|].
  split; [repeat split; vm_compute; reflexivity|].
  split.
  - unfold force_additive. intros H. vm_compute in H. discriminate H.
  - unfold force_zero_at_reference. intros H.
    assert (E : PrimFloat.eqb infinity 0 = false) by (vm_compute; reflexivity).
    specialize (H E). vm_compute in H. discriminate H.
Qed.
